(** * rosi_leveler / chassis_control: the chassis leveling controller

    A shallow embedding of [src/rosi_leveler/script/chassis_control.py].

    Numbers: Python floats are idealised as the real numbers [R]; the
    control-mode tag is a Python int, modelled as [Z].  Quaternions follow
    numpy-quaternion ([np.quaternion]), dual quaternions follow dqrobotics
    ([DQ]), 2-D numpy arrays are lists of rows. *)

From Stdlib Require Import String Reals Lra Lia ZArith Bool List Psatz RNsatz.
Import ListNotations.
Local Open Scope R_scope.

(* ===================================================================== *)
(** ** np.quaternion *)
(* ===================================================================== *)

Module Quat.

Record quaternion : Type := mkQ { qw : R; qx : R; qy : R; qz : R }.

(** [q.components] : the array [w, x, y, z]. *)
Definition components (q : quaternion) : list R :=
  [qw q; qx q; qy q; qz q].

(** [q.conj()] *)
Definition conj (q : quaternion) : quaternion :=
  mkQ (qw q) (- qx q) (- qy q) (- qz q).

(** [p * q] : the Hamilton product. *)
Definition mul (p q : quaternion) : quaternion :=
  mkQ (qw p * qw q - qx p * qx q - qy p * qy q - qz p * qz q)
      (qw p * qx q + qx p * qw q + qy p * qz q - qz p * qy q)
      (qw p * qy q - qx p * qz q + qy p * qw q + qz p * qx q)
      (qw p * qz q + qx p * qy q - qy p * qx q + qz p * qw q).

Definition add (p q : quaternion) : quaternion :=
  mkQ (qw p + qw q) (qx p + qx q) (qy p + qy q) (qz p + qz q).

Definition scale (k : R) (q : quaternion) : quaternion :=
  mkQ (k * qw q) (k * qx q) (k * qy q) (k * qz q).

Definition one : quaternion := mkQ 1 0 0 0.
Definition zero : quaternion := mkQ 0 0 0 0.

Definition norm2 (q : quaternion) : R :=
  qw q * qw q + qx q * qx q + qy q * qy q + qz q * qz q.

End Quat.
Import Quat.

(* ===================================================================== *)
(** ** dqrobotics DQ *)
(* ===================================================================== *)

Module DualQuat.

(** A dual quaternion [P + eps D]. *)
Record DQ : Type := mkDQ { P : quaternion; D : quaternion }.

(** The eight-scalar constructor [DQ(a, b, c, d, e, f, g, h)]. *)
Definition DQ8 (a b c d e f g h : R) : DQ :=
  mkDQ (mkQ a b c d) (mkQ e f g h).

(** [dq.vec8()] *)
Definition vec8 (x : DQ) : list R :=
  Quat.components (P x) ++ Quat.components (D x).

(** [dq.conj()] : conjugates the primary and the dual part. *)
Definition conj (x : DQ) : DQ := mkDQ (Quat.conj (P x)) (Quat.conj (D x)).

(** [a * b] : (p1 + eps d1)(p2 + eps d2) = p1 p2 + eps (p1 d2 + d1 p2). *)
Definition mul (a b : DQ) : DQ :=
  mkDQ (Quat.mul (P a) (P b))
       (Quat.add (Quat.mul (P a) (D b)) (Quat.mul (D a) (P b))).

Definition one : DQ := DQ8 1 0 0 0 0 0 0 0.

End DualQuat.
Import DualQuat.

(* ===================================================================== *)
(** ** numpy 2-D arrays used by the controller *)
(* ===================================================================== *)

Module Np.

(** A 2-D array as the list of its rows. *)
Definition matrix : Type := list (list R).

(** [shape r c M] : [M] has [r] rows of [c] entries each. *)
Definition shape (r c : nat) (M : matrix) : Prop :=
  length M = r /\ Forall (fun row => length row = c) M.

Fixpoint sum (l : list R) : R :=
  match l with
  | [] => 0
  | a :: l' => a + sum l'
  end.

Fixpoint zip_with (f : R -> R -> R) (l1 l2 : list R) : list R :=
  match l1, l2 with
  | a :: l1', b :: l2' => f a b :: zip_with f l1' l2'
  | _, _ => []
  end.

(** [np.multiply(a, b)] on 1-D arrays of equal length. *)
Definition multiply (l1 l2 : list R) : list R := zip_with Rmult l1 l2.

Definition ncols (M : matrix) : nat :=
  match M with
  | [] => O
  | row :: _ => length row
  end.

Definition col (j : nat) (M : matrix) : list R :=
  map (fun row => nth j row 0) M.

(** [np.dot(A, B)] on 2-D arrays of conformant shapes (numpy raises on
    the others; the statements below fix the shapes): entry (i, j) is the
    sum over k of A[i][k] * B[k][j]. *)
Definition dot (A B : matrix) : matrix :=
  map (fun row => map (fun j => sum (multiply row (col j B)))
                      (seq 0 (ncols B))) A.

(** [A + B] and [A - B] on arrays of equal shape. *)
Definition madd (A B : matrix) : matrix :=
  map (fun rs => zip_with Rplus (fst rs) (snd rs)) (combine A B).
Definition msub (A B : matrix) : matrix :=
  map (fun rs => zip_with Rminus (fst rs) (snd rs)) (combine A B).

(** [np.eye(n)] *)
Definition eye (n : nat) : matrix :=
  map (fun i => map (fun j => if Nat.eqb i j then 1 else 0) (seq 0 n))
      (seq 0 n).

(** [np.array(l).reshape(n, 1)] : a column; numpy raises ValueError
    unless [l] has exactly [n] entries. *)
Definition reshape_col (n : nat) (l : list R) : option matrix :=
  if Nat.eqb (length l) n then Some (map (fun a => [a]) l) else None.

Definition zeros (r c : nat) : matrix := repeat (repeat 0 c) r.

End Np.
Import Np.

(* ===================================================================== *)
(** ** rosi_common.dq_tools *)
(* ===================================================================== *)

Module DqTools.

(** Three-component arrays (translations, roll-pitch-yaw triples). *)
Definition V3 : Type := (R * R * R)%type.

(** [np.arctan2(y, x)] over the reals: the angle of the point (x, y) in
    (-PI, PI]. *)
Definition atan2 (y x : R) : R :=
  if Rlt_dec 0 x then atan (y / x)
  else if Rlt_dec x 0 then
         if Rle_dec 0 y then atan (y / x) + PI else atan (y / x) - PI
       else if Rlt_dec 0 y then PI / 2
            else if Rlt_dec y 0 then - (PI / 2) else 0.

(** Modelled from the spec: [rpy2quat] of rosi_common.dq_tools is not
    under src/.  The spec has the set-point orientation given "in
    roll-pitch-yaw form" and converted to an orientation quaternion;
    this is the roll-pitch-yaw (yaw about z, then pitch about y, then
    roll about x) conversion, returned as the array [w, x, y, z]. *)
Definition rpy2quat (rpy : V3) : R * R * R * R :=
  let '(r, p, y) := rpy in
  let cr := cos (r / 2) in let sr := sin (r / 2) in
  let cp := cos (p / 2) in let sp := sin (p / 2) in
  let cy := cos (y / 2) in let sy := sin (y / 2) in
  (cr * cp * cy + sr * sp * sy,
   sr * cp * cy - cr * sp * sy,
   cr * sp * cy + sr * cp * sy,
   cr * cp * sy - sr * sp * cy).

(** Modelled from the spec: [quat2rpy] of rosi_common.dq_tools is not
    under src/.  The spec has an orientation "reconstructed from the
    stored quaternion in roll-pitch-yaw form (not unique at gimbal
    lock)"; this is the inverse of [rpy2quat] on the principal range. *)
Definition quat2rpy (q : quaternion) : V3 :=
  (atan2 (2 * (qw q * qx q + qy q * qz q))
         (1 - 2 * (qx q * qx q + qy q * qy q)),
   asin (2 * (qw q * qy q - qz q * qx q)),
   atan2 (2 * (qw q * qz q + qx q * qy q))
         (1 - 2 * (qy q * qy q + qz q * qz q))).

(** Modelled from the spec: [trAndOri2dq] of rosi_common.dq_tools is not
    under src/.  The spec has a pose "encoding rotation + translation,
    composed with a fixed translate-then-rotate convention"; the source
    always passes the order ['trfirst'].  The pose is the product of
    the pure translation [1 + eps t/2] with the rotation [q]. *)
Definition trAndOri2dq (tr : V3) (q : quaternion) : DQ :=
  let '(tx, ty, tz) := tr in
  DualQuat.mul (DQ8 1 0 0 0 0 (tx / 2) (ty / 2) (tz / 2))
               (mkDQ q Quat.zero).

(** Modelled from the spec: [dqElementwiseMul] of rosi_common.dq_tools is
    not under src/.  The spec has the control signal as the "elementwise
    product of conjugate(pose gain) and the error". *)
Definition dqElementwiseMul (a b : DQ) : DQ :=
  DQ8 (qw (P a) * qw (P b)) (qx (P a) * qx (P b))
      (qy (P a) * qy (P b)) (qz (P a) * qz (P b))
      (qw (D a) * qw (D b)) (qx (D a) * qx (D b))
      (qy (D a) * qy (D b)) (qz (D a) * qz (D b)).

(** Modelled from the spec: the translation read off a pose of the
    "translate-then-rotate convention" [t r] (the decomposition inside
    [dqExtractTransV3] and [dq2trAndQuatArray], not under src/): twice
    the dual part times the conjugate of the primary part. *)
Definition translation (x : DQ) : V3 :=
  let t := Quat.scale 2 (Quat.mul (D x) (Quat.conj (P x))) in
  (qx t, qy t, qz t).

(** Modelled from the spec: [dqExtractTransV3] of rosi_common.dq_tools is
    not under src/.  The translation of the pose, as a 3x1 array. *)
Definition dqExtractTransV3 (x : DQ) : matrix :=
  let '(tx, ty, tz) := translation x in [[tx]; [ty]; [tz]].

(** Modelled from the spec: [dq2trAndQuatArray] of rosi_common.dq_tools
    is not under src/.  The spec has the control signal "decomposed into
    a height-error scalar and a roll/pitch vector": the translation as a
    3x1 array and the rotation quaternion. *)
Definition dq2trAndQuatArray (x : DQ) : matrix * quaternion :=
  (dqExtractTransV3 x, P x).

(** Modelled from the spec: [dq2rpy] of rosi_common.dq_tools is not under
    src/.  The roll-pitch-yaw form of the rotation part of the pose. *)
Definition dq2rpy (x : DQ) : V3 := quat2rpy (P x).

End DqTools.
Import DqTools.

(* ===================================================================== *)
(** ** ROS messages, requests and the node state *)
(* ===================================================================== *)

(** geometry_msgs/Vector3 *)
Record Vector3 : Type := mkVector3 { v3x : R; v3y : R; v3z : R }.

(** rosi_common/Vector3ArrayStamped, sensor_msgs/JointState and
    sensor_msgs/Imu: the fields the node reads (headers carry the ROS
    time and are left out). *)
Record Vector3ArrayStamped : Type := mkV3Array { vec : list Vector3 }.
Record JointState : Type := mkJointState { position : list R }.
Record Imu : Type := mkImu { orientation : quaternion }.

(** Python exceptions a loop iteration can raise. *)
Inductive exn : Type :=
| IndexError | ValueError | UnboundLocalError | KeyError.

(** What the node publishes, by publisher. *)
Inductive output : Type :=
| CmdVelFlipperSpace (m : list Vector3)   (* pub_cmdVelFlipperSpace *)
| DqPoseCurr (m : list R)                 (* pub_dqPoseCurr *)
| DqSetPoint (m : list R)                 (* pub_dqSetPoint *)
| DqError (m : list R)                    (* pub_dqError *)
| DqSP (m : list R).                      (* pub_dqSP *)

Definition is_cmd (o : output) : bool :=
  match o with CmdVelFlipperSpace _ => true | _ => false end.

(** Available control types: the dict [chassisCtrlType]. *)
Definition chassisCtrlType : list (string * Z) :=
  [("orientation"%string, 1%Z);
   ("orientationNullSpace"%string, 2%Z);
   ("articulation"%string, 3%Z)].

Fixpoint dict_get (d : list (string * Z)) (k : string) : Z :=
  match d with
  | [] => 0%Z
  | (k', v) :: d' => if String.eqb k' k then v else dict_get d' k
  end.

Definition CT_orientation : Z :=
  Eval cbv in dict_get chassisCtrlType "orientation".
Definition CT_orientationNullSpace : Z :=
  Eval cbv in dict_get chassisCtrlType "orientationNullSpace".
Definition CT_articulation : Z :=
  Eval cbv in dict_get chassisCtrlType "articulation".

(** [np.deg2rad] *)
Definition deg2rad (d : R) : R := d * PI / 180.

(** Propulsion joints angular set-point and mu function gain of the
    null-space controller. *)
Definition flpJointPosSp_l : list R := repeat (deg2rad 110) 4.
Definition kmu_l : list R := repeat (3 / 10) 4.

(** [dq2DualQuaternionStampedMsg]: the eight scalars wp .. zd. *)
Definition dq2DualQuaternionStampedMsg (x : DQ) : list R := vec8 x.

(** [convertSetPoints2DqFormat(tr, rpy)] *)
Definition convertSetPoints2DqFormat (tr rpy : V3) : quaternion * DQ :=
  let '(a, b, c, d) := rpy2quat rpy in
  let ori_q := mkQ a b c d in
  (ori_q, trAndOri2dq tr ori_q).

(** A value of the ROS parameter server (rospy.get_param). *)
Inductive param_value : Type :=
| PBool (b : bool) | PInt (i : Z) | PDouble (d : R) | PStr (s : string).

(** Code the node calls that is neither under src/ nor fixed by the spec:
    the flipper sign convention of rosi_common.rosi_tools and numpy's
    pseudo-inverse. *)
Record Env : Type := mkEnv {
  correctFlippersJointSignal : list R -> list R;
  pinv : matrix -> matrix   (* np.linalg.pinv *)
}.

(** The one-time kinematic calculations of [__init__]. *)
Record Kin : Type := mkKin {
  J_ori_dagger : matrix;
  J_ori : matrix;
  J_ori_nsproj : matrix;
  J_art_dagger : matrix
}.

(** The attributes of [NodeClass] the callbacks and the loop use, and the
    local variable [e_a_R_dq] of [nodeMain], which lives across loop
    iterations ([None]: not yet bound). *)
Record state : Type := mkState {
  drive_side : param_value;
  active : bool;                            (* ns.getNodeStatus()['active'] *)
  msg_grndDist : option Vector3ArrayStamped;
  msg_jointState : option JointState;
  msg_imu : option Imu;
  ctrlType_curr : Z;
  x_sp_ori_q : quaternion;
  x_sp_dq : DQ;
  kp_o_q : quaternion;
  kp_a_dq : DQ;
  kin : Kin;
  e_a_R_dq : option DQ
}.

Definition set_drive_side (v : param_value) (s : state) : state :=
  mkState v (active s) (msg_grndDist s) (msg_jointState s) (msg_imu s)
          (ctrlType_curr s) (x_sp_ori_q s) (x_sp_dq s) (kp_o_q s) (kp_a_dq s)
          (kin s) (e_a_R_dq s).
Definition set_active (b : bool) (s : state) : state :=
  mkState (drive_side s) b (msg_grndDist s) (msg_jointState s) (msg_imu s)
          (ctrlType_curr s) (x_sp_ori_q s) (x_sp_dq s) (kp_o_q s) (kp_a_dq s)
          (kin s) (e_a_R_dq s).
Definition set_msg_grndDist (m : Vector3ArrayStamped) (s : state) : state :=
  mkState (drive_side s) (active s) (Some m) (msg_jointState s) (msg_imu s)
          (ctrlType_curr s) (x_sp_ori_q s) (x_sp_dq s) (kp_o_q s) (kp_a_dq s)
          (kin s) (e_a_R_dq s).
Definition set_msg_jointState (m : JointState) (s : state) : state :=
  mkState (drive_side s) (active s) (msg_grndDist s) (Some m) (msg_imu s)
          (ctrlType_curr s) (x_sp_ori_q s) (x_sp_dq s) (kp_o_q s) (kp_a_dq s)
          (kin s) (e_a_R_dq s).
Definition set_msg_imu (m : Imu) (s : state) : state :=
  mkState (drive_side s) (active s) (msg_grndDist s) (msg_jointState s)
          (Some m)
          (ctrlType_curr s) (x_sp_ori_q s) (x_sp_dq s) (kp_o_q s) (kp_a_dq s)
          (kin s) (e_a_R_dq s).
Definition set_ctrlType_curr (v : Z) (s : state) : state :=
  mkState (drive_side s) (active s) (msg_grndDist s) (msg_jointState s)
          (msg_imu s)
          v (x_sp_ori_q s) (x_sp_dq s) (kp_o_q s) (kp_a_dq s)
          (kin s) (e_a_R_dq s).
Definition set_x_sp (sp : quaternion * DQ) (s : state) : state :=
  mkState (drive_side s) (active s) (msg_grndDist s) (msg_jointState s)
          (msg_imu s)
          (ctrlType_curr s) (fst sp) (snd sp) (kp_o_q s) (kp_a_dq s)
          (kin s) (e_a_R_dq s).
Definition set_kp (ko : quaternion) (ka : DQ) (s : state) : state :=
  mkState (drive_side s) (active s) (msg_grndDist s) (msg_jointState s)
          (msg_imu s)
          (ctrlType_curr s) (x_sp_ori_q s) (x_sp_dq s) ko ka
          (kin s) (e_a_R_dq s).
Definition set_e_a_R_dq (e : DQ) (s : state) : state :=
  mkState (drive_side s) (active s) (msg_grndDist s) (msg_jointState s)
          (msg_imu s)
          (ctrlType_curr s) (x_sp_ori_q s) (x_sp_dq s) (kp_o_q s) (kp_a_dq s)
          (kin s) (Some e).

(* ===================================================================== *)
(** ** The loop-iteration monad: node state, published messages, errors *)
(* ===================================================================== *)

Definition M (A : Type) : Type :=
  state -> list output * (exn + A * state).

Definition ret {A} (a : A) : M A := fun s => ([], inr (a, s)).

Definition bind {A B} (m : M A) (f : A -> M B) : M B :=
  fun s =>
    match m s with
    | (o1, inl e) => (o1, inl e)
    | (o1, inr (a, s1)) =>
        let '(o2, r) := f a s1 in (o1 ++ o2, r)
    end.

Definition raise {A} (e : exn) : M A := fun _ => ([], inl e).
Definition publish (o : output) : M unit := fun s => ([o], inr (tt, s)).
Definition get : M state := fun s => ([], inr (s, s)).
Definition modify (f : state -> state) : M unit :=
  fun s => ([], inr (tt, f s)).

(** A partial operation run in the monad: [None] raises [e]. *)
Definition try_ {A} (e : exn) (o : option A) : M A :=
  match o with
  | Some a => ret a
  | None => raise e
  end.

Declare Scope leveler_scope.
Notation "x <- c1 ;; c2" := (bind c1 (fun x => c2))
  (at level 61, c1 at next level, right associativity) : leveler_scope.
Notation "c1 ;; c2" := (bind c1 (fun _ => c2))
  (at level 61, right associativity) : leveler_scope.
Local Open Scope leveler_scope.

(* ===================================================================== *)
(** ** NodeClass *)
(* ===================================================================== *)

(** [__init__], from the parameter value [getParamWithWait] returned, the
    node status and the two Jacobians [compute_J_ori_dagger] and
    [compute_J_art_dagger] computed from the mounting geometry. *)
Definition one_time_kin (env : Env) (Jo Ja : matrix) : Kin :=
  let J := pinv env Jo in
  mkKin Jo J (msub (eye 4) (dot Jo J)) Ja.

Definition init (env : Env) (side : param_value) (act : bool)
    (Jo Ja : matrix) : state :=
  let x_sp_ori_rpy : V3 := (deg2rad 0, deg2rad 0, deg2rad 0) in
  let x_sp_tr : V3 := (0, 0, 3 / 10) in
  let kp_rot_v : V3 := (2, 4, 1) in
  let kp_tr_v : V3 := (1, 1, 8 / 10) in
  let sp := convertSetPoints2DqFormat x_sp_tr x_sp_ori_rpy in
  let '(k0, k1, k2) := kp_rot_v in
  let '(t0, t1, t2) := kp_tr_v in
  mkState side act None None None
          CT_orientation
          (fst sp) (snd sp)
          (mkQ 1 k0 k1 k2)
          (DQ8 1 k0 k1 k2 1 t0 t1 t2)
          (one_time_kin env Jo Ja)
          None.

(** The null-space bias
    [[ki * (jsp - jcurr) for jcurr, jsp, ki in zip(flp, sp, kmu)]]. *)
Fixpoint mu_list (flp sp kmu : list R) : list R :=
  match flp, sp, kmu with
  | jcurr :: flp', jsp :: sp', ki :: kmu' =>
      ki * (jsp - jcurr) :: mu_list flp' sp' kmu'
  | _, _, _ => []
  end.

Definition is_orientation_mode (s : state) : bool :=
  (ctrlType_curr s =? CT_orientation)%Z
  || (ctrlType_curr s =? CT_orientationNullSpace)%Z.

(** The de-yawed chassis orientation (lines 157-163). *)
Definition deyaw (q_imu : quaternion) : quaternion :=
  let rpy := quat2rpy q_imu in
  let '(a, b, c, d) := rpy2quat (0, 0, snd rpy) in
  let q_yawcorr := mkQ a b c d in
  Quat.mul q_imu q_yawcorr.

(** The control-mode branches of the loop (lines 169-218): the per-unit
    signal [u_Pi_v] and, in the orientation modes, the error [e_o_R_q]. *)
Definition control_modes (env : Env) (j : JointState)
    (x_o_R_q : quaternion) (x_a_R_dq : DQ) : M (matrix * option quaternion) :=
  s <- get ;;
  if is_orientation_mode s then
    let e_o_R_q := Quat.mul (Quat.conj (x_sp_ori_q s)) x_o_R_q in
    let u_o_R_q :=
      multiply (Quat.components (Quat.conj (kp_o_q s)))
               (Quat.components e_o_R_q) in
    let u_o_R_v := [[nth 1 u_o_R_q 0]; [nth 2 u_o_R_q 0]] in
    let u_Pi_v := dot (J_ori_dagger (kin s)) u_o_R_v in
    if (ctrlType_curr s =? CT_orientationNullSpace)%Z then
      let flpJPos_l := correctFlippersJointSignal env (skipn 4 (position j)) in
      mu <- try_ ValueError
              (reshape_col 4 (mu_list flpJPos_l flpJointPosSp_l kmu_l)) ;;
      let aux_u := dot (J_ori_nsproj (kin s)) mu in
      ret (madd u_Pi_v aux_u, Some e_o_R_q)
    else ret (u_Pi_v, Some e_o_R_q)
  else if (ctrlType_curr s =? CT_articulation)%Z then
    let e := DualQuat.mul (DualQuat.conj (x_sp_dq s)) x_a_R_dq in
    modify (set_e_a_R_dq e) ;;
    let u_a_R_dq := dqElementwiseMul (DualQuat.conj (kp_a_dq s)) e in
    let '(u_a_R_tr, u_a_R_q) := dq2trAndQuatArray u_a_R_dq in
    let u_a_R :=
      [[nth 0 (nth 2 u_a_R_tr []) 0];
       [nth 1 (Quat.components u_a_R_q) 0];
       [nth 2 (Quat.components u_a_R_q) 0]] in
    ret (dot (J_art_dagger (kin s)) u_a_R, None)
  else
    ret ([[0]; [0]; [0]; [0]], None).

(** One pass through the body of the [while] loop once the three
    messages are there (lines 155-255).  [lookup] is what
    [rospy.get_param] finds for the drive-side parameter at this pass. *)
Definition control_cycle (env : Env) (g : Vector3ArrayStamped)
    (j : JointState) (i : Imu) (lookup : option param_value) : M unit :=
  let q_imu := orientation i in
  let x_o_R_q := deyaw q_imu in
  g0 <- try_ IndexError (nth_error (vec g) 0) ;;
  let x_a_R_dq := trAndOri2dq (0, 0, v3z g0) x_o_R_q in
  r <- control_modes env j x_o_R_q x_a_R_dq ;;
  let '(u_Pi_v, e_o_R_q) := r in
  side <- try_ KeyError lookup ;;
  modify (set_drive_side side) ;;
  publish (CmdVelFlipperSpace
             (map (fun u_Pi => mkVector3 0 0 (nth 0 u_Pi 0)) u_Pi_v)) ;;
  publish (DqPoseCurr (dq2DualQuaternionStampedMsg x_a_R_dq)) ;;
  s <- get ;;
  publish (DqSetPoint (dq2DualQuaternionStampedMsg (x_sp_dq s))) ;;
  (if is_orientation_mode s then
     e <- try_ UnboundLocalError e_o_R_q ;;
     let aux := Quat.components e in
     modify (set_e_a_R_dq
               (DQ8 (nth 0 aux 0) (nth 1 aux 0) (nth 2 aux 0) (nth 3 aux 0)
                    0 0 0 0))
   else ret tt) ;;
  s1 <- get ;;
  e_a <- try_ UnboundLocalError (e_a_R_dq s1) ;;
  publish (DqError (dq2DualQuaternionStampedMsg e_a)) ;;
  publish (DqSP (dq2DualQuaternionStampedMsg (kp_a_dq s1))).

(** The body of the [while] loop of [nodeMain] (lines 149-255). *)
Definition nodeMain_pass (env : Env) (lookup : option param_value) : M unit :=
  s <- get ;;
  if active s then
    match msg_grndDist s, msg_jointState s, msg_imu s with
    | Some g, Some j, Some i => control_cycle env g j i lookup
    | _, _, _ => ret tt
    end
  else ret tt.

(** Topic callbacks. *)
Definition cllbck_imu (msg : Imu) (s : state) : state := set_msg_imu msg s.
Definition cllbck_grndDist (msg : Vector3ArrayStamped) (s : state) : state :=
  set_msg_grndDist msg s.
Definition cllbck_jointState (msg : JointState) (s : state) : state :=
  set_msg_jointState msg s.

(** Service callbacks. *)

(** Modelled from the spec: [nodeStatus.defActiveServiceReq] of
    rosi_common.node_status_tools is not under src/; the spec has a
    "set active (on/off) status" request. *)
Definition srvcllbck_setActive (b : bool) (s : state) : state :=
  set_active b s.

Definition srvcllbck_setPoseSetPoint (translation orientation : V3)
    (s : state) : state * bool :=
  (set_x_sp (convertSetPoints2DqFormat translation orientation) s, true).

Definition srvcllbck_setPoseCtrlGain (kp_ori kp_tr : V3) (s : state)
  : state * bool :=
  let '(o0, o1, o2) := kp_ori in
  let '(t0, t1, t2) := kp_tr in
  (set_kp (mkQ 1 o0 o1 o2) (DQ8 1 o0 o1 o2 1 t0 t1 t2) s, true).

Definition srvcllbck_getPoseSetPoint (s : state) : list R * V3 :=
  (concat (dqExtractTransV3 (x_sp_dq s)), dq2rpy (x_sp_dq s)).

Definition srvcllbck_getPoseCtrlGain (s : state) : list R * list R :=
  let aux := vec8 (kp_a_dq s) in
  (firstn 3 (skipn 1 aux), skipn 5 aux).

(** [srvcllbck_setCtrlType]: the new state and [resp.ret]. *)
Definition srvcllbck_setCtrlType (value : Z) (s : state) : state * Z :=
  if ((1 <=? value)%Z && (value <=? Z.of_nat (length chassisCtrlType))%Z)%bool
  then
    let s' := set_ctrlType_curr value s in
    (s', ctrlType_curr s')
  else (s, (-1)%Z).

Definition srvcllbck_getCtrlType (s : state) : Z := ctrlType_curr s.

(* ===================================================================== *)
(** ** The node as a transition system *)
(* ===================================================================== *)

(** What can happen to the node: a message arrives on a topic, a service
    is called, or the loop makes a pass ([Tick], with what the parameter
    server then holds for the drive-side parameter). *)
Inductive event : Type :=
| MsgImu (m : Imu)
| MsgGrndDist (m : Vector3ArrayStamped)
| MsgJointState (m : JointState)
| SetActive (b : bool)
| SetPoseSetPoint (translation orientation : V3)
| SetPoseCtrlGain (kp_ori kp_tr : V3)
| SetCtrlType (value : Z)
| Tick (lookup : option param_value).

(** What a pass of the loop leaves behind. *)
Definition tick (env : Env) (lookup : option param_value) (s : state)
  : list output * (exn + state) :=
  match nodeMain_pass env lookup s with
  | (o, inl e) => (o, inl e)
  | (o, inr (_, s')) => (o, inr s')
  end.

Definition step (env : Env) (ev : event) (s : state)
  : list output * (exn + state) :=
  match ev with
  | MsgImu m => ([], inr (cllbck_imu m s))
  | MsgGrndDist m => ([], inr (cllbck_grndDist m s))
  | MsgJointState m => ([], inr (cllbck_jointState m s))
  | SetActive b => ([], inr (srvcllbck_setActive b s))
  | SetPoseSetPoint tr rpy => ([], inr (fst (srvcllbck_setPoseSetPoint tr rpy s)))
  | SetPoseCtrlGain ko kt => ([], inr (fst (srvcllbck_setPoseCtrlGain ko kt s)))
  | SetCtrlType v => ([], inr (fst (srvcllbck_setCtrlType v s)))
  | Tick lookup => tick env lookup s
  end.

(** A run: what each event published, and the state at the end, or the
    exception that ended the loop. *)
Fixpoint run (env : Env) (evs : list event) (s : state)
  : list (list output) * (exn + state) :=
  match evs with
  | [] => ([], inr s)
  | ev :: evs' =>
      match step env ev s with
      | (o, inl e) => ([o], inl e)
      | (o, inr s') =>
          let '(os, r) := run env evs' s' in (o :: os, r)
      end
  end.

(** The three sensor snapshots are there. *)
Definition ready (s : state) : bool :=
  match msg_grndDist s, msg_jointState s, msg_imu s with
  | Some _, Some _, Some _ => true
  | _, _, _ => false
  end.

Definition valid_mode (v : Z) : bool :=
  ((v =? 1) || (v =? 2) || (v =? 3))%Z.

(** The command outputs among the published messages. *)
Definition commands (o : list output) : list output := filter is_cmd o.

(** The shapes of the kinematic model: [J_ori_dagger] is 4x2, [J_ori]
    2x4, the null-space projector 4x4 and [J_art_dagger] 4x3. *)
Definition kin_shapes (k : Kin) : Prop :=
  shape 4 2 (J_ori_dagger k) /\ shape 2 4 (J_ori k) /\
  shape 4 4 (J_ori_nsproj k) /\ shape 4 3 (J_art_dagger k).

(** The node is in a state in which a pass of the loop goes through:
    the ground-distance message carries a vector, in the null-space
    mode the corrected flipper array fills the 4x1 bias, and the
    kinematic model has the shapes the products of the loop need. *)
Definition well_formed (env : Env) (s : state) : Prop :=
  (exists g, msg_grndDist s = Some g /\ vec g <> []) /\
  ((ctrlType_curr s = CT_orientationNullSpace) ->
   exists j, msg_jointState s = Some j /\
     (4 <= length (correctFlippersJointSignal env (skipn 4 (position j))))%nat)
  /\ kin_shapes (kin s).

(** Two events that differ at most in the value found for the drive-side
    parameter. *)
Definition same_but_side (e1 e2 : event) : Prop :=
  e1 = e2 \/
  exists v1 v2, e1 = Tick (Some v1) /\ e2 = Tick (Some v2).

(** Two results of a step that publish the same messages, and end with
    the same exception or in states that differ at most in [drive_side]. *)
Definition same_result (r1 r2 : list output * (exn + state)) : Prop :=
  fst r1 = fst r2 /\
  match snd r1, snd r2 with
  | inl e1, inl e2 => e1 = e2
  | inr s1, inr s2 => exists v, s2 = set_drive_side v s1
  | _, _ => False
  end.

(** [A.T] and the four Penrose conditions that define the Moore-Penrose
    pseudo-inverse [B] of [A]. *)
Definition transpose (M : matrix) : matrix :=
  map (fun j => col j M) (seq 0 (ncols M)).

Definition moore_penrose (A B : matrix) : Prop :=
  dot (dot A B) A = A /\
  dot (dot B A) B = B /\
  transpose (dot A B) = dot A B /\
  transpose (dot B A) = dot B A.

(** The command of four zero velocities. *)
Definition zero_cmd : output :=
  CmdVelFlipperSpace (repeat (mkVector3 0 0 0) 4).

(** The command message built from the signal [u_Pi_v] (line 232). *)
Definition cmd_msg (u_Pi_v : matrix) : output :=
  CmdVelFlipperSpace (map (fun u_Pi => mkVector3 0 0 (nth 0 u_Pi 0)) u_Pi_v).

(** The Orientation law in the words of the specification: the error is
    conjugate(set-point) x current, the control signal is the elementwise
    product of the conjugated gain with the error on the roll and pitch
    components, and the command is [J_ori_dagger] applied to that
    2-vector. *)
Definition spec_orientation_error (sp x_o : quaternion) : quaternion :=
  Quat.mul (Quat.conj sp) x_o.

Definition spec_orientation_signal (kp e : quaternion) : R * R :=
  (qx (Quat.conj kp) * qx e, qy (Quat.conj kp) * qy e).

Definition spec_apply_J (J : matrix) (u : R * R) : list R :=
  map (fun row => nth 0 row 0 * fst u + nth 1 row 0 * snd u) J.

Definition spec_orientation_command (J : matrix) (sp kp x_o : quaternion)
  : list R :=
  spec_apply_J J (spec_orientation_signal kp (spec_orientation_error sp x_o)).

(** Set the pose set-point, then read it back. *)
Definition get_after_set (tr rpy : V3) (s : state) : list R * V3 :=
  srvcllbck_getPoseSetPoint (fst (srvcllbck_setPoseSetPoint tr rpy s)).

(* ===================================================================== *)
(** ** A sample configuration *)
(* ===================================================================== *)

Module Sample.

(** Four units at the corners of a square. *)
Definition Jo : matrix := [[1; 1]; [1; -1]; [-1; 1]; [-1; -1]].
Definition Jo_pinv : matrix :=
  [[1/4; 1/4; -1/4; -1/4]; [1/4; -1/4; 1/4; -1/4]].
Definition Ja : matrix :=
  [[1; 1; 1]; [1; 1; -1]; [1; -1; 1]; [1; -1; -1]].

Definition env : Env := mkEnv (fun l => l) (fun _ => Jo_pinv).

Definition side : param_value := PStr "a".

Definition s0 : state := init env side true Jo Ja.

Definition imu_level : Imu := mkImu Quat.one.
Definition imu_quarter_turn : Imu :=
  mkImu (mkQ (1 / sqrt 2) 0 0 (1 / sqrt 2)).
Definition grnd (h : R) : Vector3ArrayStamped := mkV3Array [mkVector3 0 0 h].
Definition grnd_empty : Vector3ArrayStamped := mkV3Array [].
Definition joints_at_target : JointState :=
  mkJointState ([0; 0; 0; 0] ++ flpJointPosSp_l).

(** All three snapshots received, flippers at their target. *)
Definition s_ready (h : R) : state :=
  cllbck_imu imu_level
    (cllbck_jointState joints_at_target (cllbck_grndDist (grnd h) s0)).

(** The same with a ground-distance message that carries no vector. *)
Definition s_empty_grnd : state :=
  cllbck_imu imu_level
    (cllbck_jointState joints_at_target (cllbck_grndDist grnd_empty s0)).

(** A state with a mode tag outside the dict, as the fall-back branch of
    the loop expects it. *)
Definition s_mode0 : state := set_ctrlType_curr 0%Z (s_ready 0).

(** The null-space mode with the flippers at their target. *)
Definition s_nullspace : state :=
  set_ctrlType_curr CT_orientationNullSpace (s_ready 0).

(** The articulation mode, the set-point moved to the zero translation
    and the identity orientation, the chassis level on the ground. *)
Definition s_articulation : state :=
  set_ctrlType_curr CT_articulation
    (fst (srvcllbck_setPoseSetPoint (0, 0, 0) (0, 0, 0) (s_ready 0))).

End Sample.

(* ===================================================================== *)
(** ** Further parts of NodeClass *)
(* ===================================================================== *)

(** [get_key_by_value(dictionary, value)] (lines 384-390): the key of the
    first item, in the order of the dict, whose value is [value]; [None]
    when no item has it. *)
Fixpoint get_key_by_value (dictionary : list (string * Z)) (value : Z)
  : option string :=
  match dictionary with
  | [] => None
  | (key, val) :: rest =>
      if (val =? value)%Z then Some key else get_key_by_value rest value
  end.

(** The parameter server as the successive rospy calls of the node see
    it: what the n-th call finds for the parameter. *)
Definition param_server : Type := nat -> option param_value.

(** [getParamWithWait(path_param)] (lines 354-359), from the call number
    [t] on: [rospy.has_param] is polled, one log line per failed poll,
    and the parameter is then fetched with [rospy.get_param], which
    raises KeyError on a missing parameter.  [fuel] bounds the number of
    polls; [None]: still waiting.  The result carries the number of log
    lines written. *)
Fixpoint getParamWithWait (fuel : nat) (server : param_server) (t : nat)
  : option (nat * (exn + param_value)) :=
  match fuel with
  | O => None
  | S fuel' =>
      match server t with
      | None =>
          match getParamWithWait fuel' server (S t) with
          | Some (logs, r) => Some (S logs, r)
          | None => None
          end
      | Some _ =>
          Some (O, match server (S t) with
                   | Some v => inr v
                   | None => inl KeyError
                   end)
      end
  end.

(** Which topic an event delivers on. *)
Definition is_MsgImu (ev : event) : bool :=
  match ev with MsgImu _ => true | _ => false end.
Definition is_MsgGrndDist (ev : event) : bool :=
  match ev with MsgGrndDist _ => true | _ => false end.
Definition is_MsgJointState (ev : event) : bool :=
  match ev with MsgJointState _ => true | _ => false end.

(** A sequence of set-control-type requests, and the mode the last
    accepted one asked for ([m] when none was accepted). *)
Definition set_modes (values : list Z) (s : state) : state :=
  fold_left (fun s0 v => fst (srvcllbck_setCtrlType v s0)) values s.

Definition last_accepted (values : list Z) (m : Z) : Z :=
  fold_left (fun m0 v => if valid_mode v then v else m0) values m.

(** The two gain attributes agree: the orientation gain is the primary
    part of the articulation gain, and both scalar parts are 1. *)
Definition gains_consistent (s : state) : Prop :=
  kp_o_q s = P (kp_a_dq s) /\ qw (kp_o_q s) = 1 /\ qw (D (kp_a_dq s)) = 1.

(** The fields a pass of the loop reads but never writes. *)
Definition same_settings (s s' : state) : Prop :=
  active s' = active s /\ msg_grndDist s' = msg_grndDist s /\
  msg_jointState s' = msg_jointState s /\ msg_imu s' = msg_imu s /\
  ctrlType_curr s' = ctrlType_curr s /\
  x_sp_ori_q s' = x_sp_ori_q s /\ x_sp_dq s' = x_sp_dq s /\
  kp_o_q s' = kp_o_q s /\ kp_a_dq s' = kp_a_dq s /\ kin s' = kin s.

(** [srvcllbck_setPoseCtrlGain] on the request arrays as they arrive
    (lines 302-311), statement by statement: line 306 indexes
    [kp_ori[0..2]] and replaces [kp_o_q]; line 309 indexes [kp_ori[0..2]]
    and [kp_tr[0..2]] and replaces [kp_a_dq]; an index past the end of
    an array raises IndexError at the statement that reads it, and what
    was assigned before stays assigned.  On arrays of three entries it
    is [srvcllbck_setPoseCtrlGain]. *)
Definition srvcllbck_setPoseCtrlGain_req (kp_ori kp_tr : list R) (s : state)
  : state * (exn + bool) :=
  match kp_ori with
  | o0 :: o1 :: o2 :: _ =>
      let s1 := set_kp (mkQ 1 o0 o1 o2) (kp_a_dq s) s in
      match kp_tr with
      | t0 :: t1 :: t2 :: _ =>
          (set_kp (kp_o_q s1) (DQ8 1 o0 o1 o2 1 t0 t1 t2) s1, inr true)
      | _ => (s1, inl IndexError)
      end
  | _ => (s, inl IndexError)
  end.

Module Cases.

(** A joint-state message with a single flipper angle. *)
Definition joints_short : JointState := mkJointState [0; 0; 0; 0; 1].

(** The null-space mode with that message as joint-state snapshot. *)
Definition s_short_joints : state :=
  cllbck_jointState joints_short Sample.s_nullspace.

(** The Orientation mode, the set-point at the identity orientation, the
    chassis level. *)
Definition s_level : state :=
  fst (srvcllbck_setPoseSetPoint (0, 0, 0) (0, 0, 0) (Sample.s_ready 0)).

(** A parameter server on which the parameter appears at the call
    number [n]. *)
Definition server_from (n : nat) (v : param_value) : param_server :=
  fun t => if Nat.ltb t n then None else Some v.

(** A parameter server that never holds the parameter. *)
Definition server_never : param_server := fun _ => None.


End Cases.

Lemma quaternion_ext (p q : quaternion) :
  qw p = qw q -> qx p = qx q -> qy p = qy q -> qz p = qz q -> p = q.
Proof. destruct p, q; simpl; intros; subst; reflexivity. Qed.

(* ===================================================================== *)
(** ** The loop and the mode dispatcher *)
(* ===================================================================== *)

(** Opens the body of the loop below the test on the three messages. *)
Ltac enter_cycle :=
  unfold control_cycle, control_modes, is_orientation_mode, bind, get, try_.

Section Loop.

Variable env : Env.

Opaque deyaw trAndOri2dq dot madd dqElementwiseMul dq2trAndQuatArray
  DualQuat.mul Quat.mul DualQuat.conj Quat.conj vec8 multiply.

Lemma reshape_col_some n l :
  length l = n -> reshape_col n l = Some (map (fun a => [a]) l).
Proof. intros H. unfold reshape_col. rewrite H, Nat.eqb_refl. reflexivity. Qed.

Lemma mu_list_length flp :
  (4 <= length flp)%nat -> length (mu_list flp flpJointPosSp_l kmu_l) = 4%nat.
Proof.
  intros H. destruct flp as [|a [|b [|c [|d flp]]]]; cbn in H; try lia.
  unfold flpJointPosSp_l, kmu_l. cbn. destruct flp; reflexivity.
Qed.

Lemma valid_mode_cases v :
  valid_mode v = false ->
  (v =? CT_orientation)%Z = false /\
  (v =? CT_orientationNullSpace)%Z = false /\
  (v =? CT_articulation)%Z = false.
Proof.
  unfold valid_mode, CT_orientation, CT_orientationNullSpace, CT_articulation.
  destruct (v =? 1)%Z, (v =? 2)%Z, (v =? 3)%Z; cbn; intros H;
    try discriminate; auto.
Qed.

(** While a snapshot is missing a pass of the loop does nothing. *)
Lemma tick_not_ready lookup s :
  ready s = false -> tick env lookup s = ([], inr s).
Proof.
  unfold tick, nodeMain_pass, ready, bind, get.
  destruct (active s); cbn; [|reflexivity].
  destruct (msg_grndDist s), (msg_jointState s), (msg_imu s); cbn;
    try discriminate; reflexivity.
Qed.

(** A pass of the loop touches [drive_side] and the local [e_a_R_dq]
    only. *)
Lemma tick_frame lookup s o s' :
  tick env lookup s = (o, inr s') ->
  active s' = active s /\ msg_grndDist s' = msg_grndDist s /\
  msg_jointState s' = msg_jointState s /\ msg_imu s' = msg_imu s /\
  ctrlType_curr s' = ctrlType_curr s /\ kin s' = kin s.
Proof.
  unfold tick, nodeMain_pass, bind, get at 1.
  destruct (active s) eqn:Ea; [|cbn; intros [= <- <-]; auto 10].
  destruct (msg_grndDist s) as [g|] eqn:Eg; [|cbn; intros [= <- <-]; auto 10].
  destruct (msg_jointState s) as [j|] eqn:Ej; [|cbn; intros [= <- <-]; auto 10].
  destruct (msg_imu s) as [i|] eqn:Ei; [|cbn; intros [= <- <-]; auto 10].
  enter_cycle.
  destruct (nth_error (vec g) 0) as [g0|]; [|cbn; discriminate].
  cbn [ret raise].
  destruct (ctrlType_curr s =? CT_orientation)%Z eqn:E1;
  destruct (ctrlType_curr s =? CT_orientationNullSpace)%Z eqn:E2;
  destruct (ctrlType_curr s =? CT_articulation)%Z eqn:E3;
  cbn [orb];
  try destruct (reshape_col 4 _) as [mu|];
  try destruct (dq2trAndQuatArray _) as [tr q];
  destruct lookup as [side|];
  cbn; rewrite ?E1, ?E2, ?E3; cbn;
  try destruct (e_a_R_dq s); cbn;
  try discriminate; intros [= <- <-]; cbn; auto 10.
Qed.

Lemma step_ready ev s o s' :
  ready s = true -> step env ev s = (o, inr s') -> ready s' = true.
Proof.
  intros Hr. unfold ready in *.
  destruct ev; cbn;
    try (intros [= <- <-]; cbn;
         destruct (msg_grndDist s), (msg_jointState s), (msg_imu s);
         solve [reflexivity | discriminate]).
  - unfold srvcllbck_setPoseCtrlGain.
    destruct kp_ori as [[? ?] ?], kp_tr as [[? ?] ?]. cbn.
    intros [= <- <-]. exact Hr.
  - unfold srvcllbck_setCtrlType. destruct (_ && _)%bool; cbn;
      intros [= <- <-]; exact Hr.
  - intros Ht. apply tick_frame in Ht.
    destruct Ht as (_ & -> & -> & -> & _). exact Hr.
Qed.

(** With the three snapshots there and well formed, a pass of the loop
    of an active node publishes one command. *)
Lemma tick_commands_one side s :
  active s = true -> ready s = true -> well_formed env s ->
  length (commands (fst (tick env (Some side) s))) = 1%nat.
Proof.
  intros Hact Hready ([g [Hg Hvec]] & Hj & _).
  unfold ready in Hready. unfold tick, nodeMain_pass, bind, get at 1.
  rewrite Hact, Hg in *.
  destruct (msg_jointState s) as [j|] eqn:Ej; [|discriminate].
  destruct (msg_imu s) as [i|] eqn:Ei; [|discriminate].
  destruct (vec g) as [|g0 vs] eqn:Ev; [congruence|].
  enter_cycle.
  rewrite Ev. cbn [nth_error ret raise].
  destruct (Z.eqb_spec (ctrlType_curr s) CT_orientationNullSpace) as [E2|E2].
  - destruct (Hj E2) as [j' [Hj' Hlen]]. injection Hj' as <-.
    rewrite (reshape_col_some 4) by (apply mu_list_length; exact Hlen).
    rewrite orb_true_r. cbn. rewrite E2. cbn. reflexivity.
  - rewrite orb_false_r.
    destruct (Z.eqb_spec (ctrlType_curr s) CT_orientation) as [E1|E1].
    + cbn. rewrite E1. cbn. reflexivity.
    + destruct (Z.eqb_spec (ctrlType_curr s) CT_articulation) as [E3|E3].
      * cbn. destruct (dq2trAndQuatArray _) as [tr q]. cbn.
        rewrite E3. cbn. reflexivity.
      * cbn.
        destruct (Z.eqb_spec (ctrlType_curr s) CT_orientation);
          [contradiction|].
        destruct (Z.eqb_spec (ctrlType_curr s) CT_orientationNullSpace);
          [contradiction|].
        cbn. destruct (e_a_R_dq s); cbn; reflexivity.
Qed.

(** In a mode outside the dict the loop publishes the zero command. *)
Lemma tick_invalid_mode_commands lookup s :
  valid_mode (ctrlType_curr s) = false ->
  incl (commands (fst (tick env lookup s))) [zero_cmd].
Proof.
  intros Hv. apply valid_mode_cases in Hv. destruct Hv as (E1 & E2 & E3).
  unfold tick, nodeMain_pass, bind, get at 1.
  destruct (active s); [|cbn; apply incl_nil_l].
  destruct (msg_grndDist s) as [g|]; [|cbn; apply incl_nil_l].
  destruct (msg_jointState s) as [j|]; [|cbn; apply incl_nil_l].
  destruct (msg_imu s) as [i|]; [|cbn; apply incl_nil_l].
  enter_cycle.
  destruct (nth_error (vec g) 0) as [g0|]; [|cbn; apply incl_nil_l].
  cbn [ret raise]. rewrite E1, E2, E3.
  destruct lookup as [side|]; cbn; [|apply incl_nil_l].
  rewrite E1, E2. cbn. destruct (e_a_R_dq s); cbn; apply incl_refl.
Qed.

Lemma tick_invalid_mode_zero side s :
  valid_mode (ctrlType_curr s) = false ->
  active s = true -> ready s = true -> well_formed env s ->
  commands (fst (tick env (Some side) s)) = [zero_cmd].
Proof.
  intros Hv Ha Hr Hw.
  pose proof (tick_invalid_mode_commands (Some side) s Hv) as Hi.
  pose proof (tick_commands_one side s Ha Hr Hw) as H1.
  destruct (commands (fst (tick env (Some side) s))) as [|c [|c' l]];
    try discriminate.
  destruct (Hi c (or_introl eq_refl)) as [<-|[]]. reflexivity.
Qed.




(** The drive-side value does not reach what a pass publishes. *)
Lemma tick_side l1 l2 v s :
  (l1 = l2 \/ exists a b, l1 = Some a /\ l2 = Some b) ->
  same_result (tick env l1 s) (tick env l2 (set_drive_side v s)).
Proof.
  intros Hl.
  assert (Hrefl : forall s0, exists w, set_drive_side v s0 = set_drive_side w s0)
    by (intros; eexists; reflexivity).
  unfold tick, nodeMain_pass, bind, get at 1 2.
  cbn [active msg_grndDist msg_jointState msg_imu set_drive_side].
  destruct (active s); [|split; cbn; eauto].
  destruct (msg_grndDist s) as [g|]; [|split; cbn; eauto].
  destruct (msg_jointState s) as [j|]; [|split; cbn; eauto].
  destruct (msg_imu s) as [i|]; [|split; cbn; eauto].
  enter_cycle.
  destruct (nth_error (vec g) 0) as [g0|]; [|split; cbn; eauto].
  cbn [ret raise ctrlType_curr set_drive_side x_sp_ori_q kp_o_q kin position
       x_sp_dq kp_a_dq].
  destruct (ctrlType_curr s =? CT_orientation)%Z eqn:E1;
  destruct (ctrlType_curr s =? CT_orientationNullSpace)%Z eqn:E2;
  destruct (ctrlType_curr s =? CT_articulation)%Z eqn:E3;
  cbn [orb];
  try destruct (reshape_col 4 _) as [mu|];
  try destruct (dq2trAndQuatArray _) as [tr q];
  destruct Hl as [<- | [a [b [-> ->]]]]; try destruct l1;
  cbn; rewrite ?E1, ?E2, ?E3; cbn;
  try destruct (e_a_R_dq s); cbn;
  (split; cbn; [reflexivity | try reflexivity; eexists; reflexivity]).
Qed.

Lemma step_side e1 e2 v s :
  same_but_side e1 e2 ->
  same_result (step env e1 s) (step env e2 (set_drive_side v s)).
Proof.
  intros [<- | (a & b & -> & ->)].
  - destruct e1; cbn;
      try (split; cbn; [reflexivity | eexists; reflexivity]).
    + unfold srvcllbck_setPoseCtrlGain.
      destruct kp_ori as [[? ?] ?], kp_tr as [[? ?] ?]. cbn.
      split; cbn; [reflexivity | eexists; reflexivity].
    + unfold srvcllbck_setCtrlType. destruct (_ && _)%bool; cbn;
        (split; cbn; [reflexivity | eexists; reflexivity]).
    + apply tick_side. left. reflexivity.
  - cbn. apply tick_side. right. eauto.
Qed.

Lemma run_side evs1 evs2 :
  Forall2 same_but_side evs1 evs2 ->
  forall v s, fst (run env evs1 s) = fst (run env evs2 (set_drive_side v s)).
Proof.
  induction 1 as [|e1 e2 evs1 evs2 He _ IH]; intros v s; [reflexivity|].
  cbn. destruct (step_side e1 e2 v s He) as [Ho Hs].
  destruct (step env e1 s) as [o1 [x1|s1]],
    (step env e2 (set_drive_side v s)) as [o2 [x2|s2]];
    cbn in Ho, Hs; subst; try contradiction; cbn; [reflexivity|].
  destruct Hs as [w ->]. specialize (IH w s1).
  destruct (run env evs1 s1), (run env evs2 (set_drive_side w s1)).
  cbn in *. congruence.
Qed.

Transparent deyaw trAndOri2dq dot madd dqElementwiseMul dq2trAndQuatArray
  DualQuat.mul Quat.mul DualQuat.conj Quat.conj vec8 multiply.

End Loop.

(* ===================================================================== *)
(** ** Roll, pitch and yaw *)
(* ===================================================================== *)

Section RollPitchYaw.

Lemma atan2_right y x : 0 < x -> atan2 y x = atan (y / x).
Proof.
  intros H. unfold atan2.
  destruct (Rlt_dec 0 x); [reflexivity|contradiction].
Qed.

Lemma atan2_left_up y x : x < 0 -> 0 <= y -> atan2 y x = atan (y / x) + PI.
Proof.
  intros Hx Hy. unfold atan2.
  destruct (Rlt_dec 0 x); [lra|].
  destruct (Rlt_dec x 0); [|contradiction].
  destruct (Rle_dec 0 y); [reflexivity|contradiction].
Qed.

Lemma atan2_left_down y x : x < 0 -> y < 0 -> atan2 y x = atan (y / x) - PI.
Proof.
  intros Hx Hy. unfold atan2.
  destruct (Rlt_dec 0 x); [lra|].
  destruct (Rlt_dec x 0); [|contradiction].
  destruct (Rle_dec 0 y); [lra|reflexivity].
Qed.

Lemma atan2_up y x : x = 0 -> 0 < y -> atan2 y x = PI / 2.
Proof.
  intros -> Hy. unfold atan2.
  destruct (Rlt_dec 0 0); [lra|].
  destruct (Rlt_dec 0 y); [reflexivity|contradiction].
Qed.

Lemma atan2_down y x : x = 0 -> y < 0 -> atan2 y x = - (PI / 2).
Proof.
  intros -> Hy. unfold atan2.
  destruct (Rlt_dec 0 0); [lra|].
  destruct (Rlt_dec 0 y); [lra|].
  destruct (Rlt_dec y 0); [reflexivity|contradiction].
Qed.

Lemma atan2_zero_right y x : y = 0 -> 0 < x -> atan2 y x = 0.
Proof.
  intros -> Hx. rewrite atan2_right by exact Hx.
  replace (0 / x) with 0 by (field; lra). apply atan_0.
Qed.

Lemma atan2_zero_left y x : y = 0 -> x < 0 -> atan2 y x = PI.
Proof.
  intros -> Hx. rewrite atan2_left_up by lra.
  replace (0 / x) with 0 by (field; lra). rewrite atan_0. ring.
Qed.

(** [atan2] recovers the angle of a point given in polar form. *)
Lemma atan2_polar k a :
  0 < k -> - PI < a < PI -> atan2 (k * sin a) (k * cos a) = a.
Proof.
  intros Hk [Hlo Hhi].
  pose proof PI_RGT_0 as Hpi.
  destruct (Rlt_dec (- (PI / 2)) a) as [H1|H1];
    [destruct (Rlt_dec a (PI / 2)) as [H2|H2]|].
  - (* the right half plane *)
    pose proof (cos_gt_0 a H1 H2) as Hc.
    rewrite atan2_right by nra.
    replace (k * sin a / (k * cos a)) with (tan a)
      by (unfold tan; field; lra).
    apply atan_tan. lra.
  - destruct (Req_dec a (PI / 2)) as [->|Hne].
    + rewrite sin_PI2, cos_PI2. apply atan2_up; lra.
    + (* the upper left quadrant *)
      assert (Hc : cos a < 0) by (apply cos_lt_0; lra).
      assert (Hs : 0 < sin a) by (apply sin_gt_0; lra).
      rewrite atan2_left_up by nra.
      assert (Hc' : cos (a - PI) = - cos a)
        by (replace (cos a) with (cos (a - PI + PI)) by (f_equal; ring);
            rewrite neg_cos; ring).
      assert (Hs' : sin (a - PI) = - sin a)
        by (replace (sin a) with (sin (a - PI + PI)) by (f_equal; ring);
            rewrite neg_sin; ring).
      replace (k * sin a / (k * cos a)) with (tan (a - PI))
        by (unfold tan; rewrite Hc', Hs'; field; lra).
      rewrite atan_tan by lra. ring.
  - destruct (Req_dec a (- (PI / 2))) as [->|Hne].
    + rewrite sin_neg, cos_neg, sin_PI2, cos_PI2. apply atan2_down; lra.
    + (* the lower left quadrant *)
      assert (Hc' : cos a = - cos (a + PI)) by (rewrite neg_cos; ring).
      assert (Hs' : sin a = - sin (a + PI)) by (rewrite neg_sin; ring).
      assert (Hc : 0 < cos (a + PI)) by (apply cos_gt_0; lra).
      assert (Hs : sin a < 0) by (apply sin_lt_0_var; lra).
      rewrite atan2_left_down by nra.
      replace (k * sin a / (k * cos a)) with (tan (a + PI))
        by (unfold tan; rewrite Hc', Hs'; field; lra).
      rewrite atan_tan by lra. ring.
Qed.

Lemma half_sin a : sin a = 2 * sin (a / 2) * cos (a / 2).
Proof. rewrite <- sin_2a. f_equal. field. Qed.

Lemma half_cos a : cos a = cos (a / 2) * cos (a / 2) - sin (a / 2) * sin (a / 2).
Proof. rewrite <- cos_2a. f_equal. field. Qed.

Lemma sin_cos_one a : sin a * sin a + cos a * cos a = 1.
Proof. pose proof (sin2_cos2 a) as H. unfold Rsqr in H. exact H. Qed.



Lemma rpy2quat_norm r p y :
  let '(a, b, c, d) := rpy2quat (r, p, y) in norm2 (mkQ a b c d) = 1.
Proof.
  unfold rpy2quat, norm2. cbn [qw qx qy qz].
  pose proof (sin_cos_one (r / 2)) as Hr.
  pose proof (sin_cos_one (p / 2)) as Hp.
  pose proof (sin_cos_one (y / 2)) as Hy.
  set (cr := cos (r / 2)) in *. set (sr := sin (r / 2)) in *.
  set (cp := cos (p / 2)) in *. set (sp := sin (p / 2)) in *.
  set (cy := cos (y / 2)) in *. set (sy := sin (y / 2)) in *.
  transitivity ((sr * sr + cr * cr) * (sp * sp + cp * cp) * (sy * sy + cy * cy));
    [ring | rewrite Hr, Hp, Hy; ring].
Qed.

Lemma quat2rpy_rpy2quat r p y :
  - PI < r < PI -> - (PI / 2) < p < PI / 2 -> - PI < y < PI ->
  let '(a, b, c, d) := rpy2quat (r, p, y) in
  quat2rpy (mkQ a b c d) = (r, p, y).
Proof.
  intros Hr Hp Hy.
  unfold rpy2quat, quat2rpy. cbn [qw qx qy qz].
  pose proof (sin_cos_one (r / 2)) as Er.
  pose proof (sin_cos_one (p / 2)) as Ep.
  pose proof (sin_cos_one (y / 2)) as Ey.
  pose proof (half_sin r) as Sr. pose proof (half_cos r) as Cr.
  pose proof (half_sin p) as Sp. pose proof (half_cos p) as Cp.
  pose proof (half_sin y) as Sy. pose proof (half_cos y) as Cy.
  assert (Hc : 0 < cos p) by (apply cos_gt_0; lra).
  set (cr := cos (r / 2)) in *. set (sr := sin (r / 2)) in *.
  set (cp := cos (p / 2)) in *. set (sp := sin (p / 2)) in *.
  set (cy := cos (y / 2)) in *. set (sy := sin (y / 2)) in *.
  replace (2 * ((cr * cp * cy + sr * sp * sy) * (sr * cp * cy - cr * sp * sy) +
                (cr * sp * cy + sr * cp * sy) * (cr * cp * sy - sr * sp * cy)))
    with (cos p * sin r) by (rewrite Cp, Sr; nsatz).
  replace (1 - 2 * ((sr * cp * cy - cr * sp * sy) * (sr * cp * cy - cr * sp * sy) +
                    (cr * sp * cy + sr * cp * sy) * (cr * sp * cy + sr * cp * sy)))
    with (cos p * cos r) by (rewrite Cp, Cr; nsatz).
  replace (2 * ((cr * cp * cy + sr * sp * sy) * (cr * sp * cy + sr * cp * sy) -
                (cr * cp * sy - sr * sp * cy) * (sr * cp * cy - cr * sp * sy)))
    with (sin p) by (rewrite Sp; nsatz).
  replace (2 * ((cr * cp * cy + sr * sp * sy) * (cr * cp * sy - sr * sp * cy) +
                (sr * cp * cy - cr * sp * sy) * (cr * sp * cy + sr * cp * sy)))
    with (cos p * sin y) by (rewrite Cp, Sy; nsatz).
  replace (1 - 2 * ((cr * sp * cy + sr * cp * sy) * (cr * sp * cy + sr * cp * sy) +
                    (cr * cp * sy - sr * sp * cy) * (cr * cp * sy - sr * sp * cy)))
    with (cos p * cos y) by (rewrite Cp, Cy; nsatz).
  rewrite !atan2_polar by assumption.
  rewrite asin_sin by lra. reflexivity.
Qed.

Lemma translation_trAndOri2dq tr q :
  norm2 q = 1 -> translation (trAndOri2dq tr q) = tr.
Proof.
  destruct tr as [[tx ty] tz], q as [w x y z].
  unfold norm2, translation, trAndOri2dq. cbn. intros Hn.
  f_equal; [f_equal|];
    match goal with
    | |- _ = ?t =>
        transitivity (t * (w * w + x * x + y * y + z * z));
          [field | rewrite Hn; ring]
    end.
Qed.

Lemma inv_sqrt2_sq : 1 / sqrt 2 * (1 / sqrt 2) = 1 / 2.
Proof.
  pose proof sqrt2_neq_0 as Hn.
  pose proof (sqrt_sqrt 2 ltac:(lra)) as Hs.
  field_simplify_eq; [|exact Hn]. lra.
Qed.

Lemma rpy2quat_yaw y :
  rpy2quat (0, 0, y) = (cos (y / 2), 0, 0, sin (y / 2)).
Proof.
  unfold rpy2quat. replace (0 / 2) with 0 by field.
  rewrite cos_0, sin_0. repeat f_equal; ring.
Qed.

Lemma rpy2quat_zero : rpy2quat (0, 0, 0) = (1, 0, 0, 0).
Proof.
  rewrite rpy2quat_yaw. replace (0 / 2) with 0 by field.
  rewrite cos_0, sin_0. reflexivity.
Qed.

Lemma deyaw_one : deyaw Quat.one = Quat.one.
Proof.
  unfold deyaw, quat2rpy. cbn [snd qw qx qy qz Quat.one].
  rewrite (atan2_zero_right (2 * (1 * 0 + 0 * 0))) by lra.
  rewrite rpy2quat_zero. unfold Quat.mul. cbn [qw qx qy qz].
  apply quaternion_ext; cbn [qw qx qy qz]; ring.
Qed.

(** On an orientation that is a pure yaw of less than a quarter turn,
    [deyaw] returns the yaw rotation by twice the angle. *)
Lemma deyaw_pure_yaw a :
  - (PI / 2) < a < PI / 2 ->
  deyaw (mkQ (cos (a / 2)) 0 0 (sin (a / 2))) = mkQ (cos a) 0 0 (sin a) /\
  snd (quat2rpy (deyaw (mkQ (cos (a / 2)) 0 0 (sin (a / 2))))) = 2 * a.
Proof.
  intros Ha.
  assert (Hd : deyaw (mkQ (cos (a / 2)) 0 0 (sin (a / 2)))
               = mkQ (cos a) 0 0 (sin a)).
  { unfold deyaw, quat2rpy. cbn [snd qw qx qy qz].
    replace (2 * (cos (a / 2) * sin (a / 2) + 0 * 0)) with (1 * sin a)
      by (rewrite (half_sin a); ring).
    replace (1 - 2 * (0 * 0 + sin (a / 2) * sin (a / 2))) with (1 * cos a)
      by (rewrite (half_cos a); pose proof (sin_cos_one (a / 2)); lra).
    rewrite atan2_polar by lra.
    rewrite rpy2quat_yaw. unfold Quat.mul. cbn [qw qx qy qz].
    apply quaternion_ext; cbn [qw qx qy qz];
      rewrite ?(half_sin a), ?(half_cos a); ring. }
  split; [exact Hd|].
  rewrite Hd. unfold quat2rpy. cbn [snd qw qx qy qz].
  replace (2 * (cos a * sin a + 0 * 0)) with (1 * sin (2 * a))
    by (rewrite sin_2a; ring).
  replace (1 - 2 * (0 * 0 + sin a * sin a)) with (1 * cos (2 * a))
    by (rewrite cos_2a_sin; ring).
  apply atan2_polar; lra.
Qed.

Lemma deyaw_quarter_turn_eval :
  snd (quat2rpy (mkQ (1 / sqrt 2) 0 0 (1 / sqrt 2))) = PI / 2 /\
  deyaw (mkQ (1 / sqrt 2) 0 0 (1 / sqrt 2)) = mkQ 0 0 0 1 /\
  snd (quat2rpy (mkQ 0 0 0 1)) = PI.
Proof.
  pose proof inv_sqrt2_sq as Hq.
  assert (Hy : snd (quat2rpy (mkQ (1 / sqrt 2) 0 0 (1 / sqrt 2))) = PI / 2).
  { unfold quat2rpy. cbn [snd qw qx qy qz]. apply atan2_up; lra. }
  split; [exact Hy|]. split.
  - unfold deyaw. rewrite Hy. rewrite rpy2quat_yaw.
    replace (PI / 2 / 2) with (PI / 4) by field.
    rewrite cos_PI4, sin_PI4. unfold Quat.mul. cbn [qw qx qy qz].
    apply quaternion_ext; cbn [qw qx qy qz]; lra.
  - unfold quat2rpy. cbn [snd qw qx qy qz]. apply atan2_zero_left; lra.
Qed.

Lemma P_trAndOri2dq tr q : P (trAndOri2dq tr q) = q.
Proof.
  destruct tr as [[tx ty] tz], q as [w x y z].
  unfold trAndOri2dq. cbn. apply quaternion_ext; cbn; ring.
Qed.

End RollPitchYaw.

(* ===================================================================== *)
(** ** The kinematic model *)
(* ===================================================================== *)

Lemma shape_4_2 M : shape 4 2 M ->
  exists a1 b1 a2 b2 a3 b3 a4 b4, M = [[a1;b1];[a2;b2];[a3;b3];[a4;b4]].
Proof.
  intros [Hl Hf].
  destruct M as [|r1 [|r2 [|r3 [|r4 [|? ?]]]]]; try discriminate.
  repeat match goal with H : Forall _ (_ :: _) |- _ => inversion H; subst; clear H end.
  repeat match goal with
    H : length ?r = 2%nat |- _ =>
      destruct r as [|? [|? [|? ?]]]; try discriminate; clear H end.
  repeat eexists.
Qed.

Lemma shape_2_4 M : shape 2 4 M ->
  exists a1 a2 a3 a4 b1 b2 b3 b4, M = [[a1;a2;a3;a4];[b1;b2;b3;b4]].
Proof.
  intros [Hl Hf].
  destruct M as [|r1 [|r2 [|? ?]]]; try discriminate.
  repeat match goal with H : Forall _ (_ :: _) |- _ => inversion H; subst; clear H end.
  repeat match goal with
    H : length ?r = 4%nat |- _ =>
      destruct r as [|? [|? [|? [|? [|? ?]]]]]; try discriminate; clear H end.
  repeat eexists.
Qed.

(** [I - A B] is a projector that [A B] annihilates, as soon as
    [A B A = A]. *)
Lemma projector A B :
  shape 4 2 A -> shape 2 4 B -> dot (dot A B) A = A ->
  let P := msub (eye 4) (dot A B) in
  dot P P = P /\ dot (dot A B) P = zeros 4 4.
Proof.
  intros HA HB H.
  destruct (shape_4_2 A HA) as (a1 & b1 & a2 & b2 & a3 & b3 & a4 & b4 & ->).
  destruct (shape_2_4 B HB) as (c1 & c2 & c3 & c4 & d1 & d2 & d3 & d4 & ->).
  cbn in H. injection H as H1 H2 H3 H4 H5 H6 H7 H8.
  cbn. split.
  - repeat (f_equal; try nsatz).
  - repeat (f_equal; try nsatz).
Qed.

(* ===================================================================== *)
(** ** The control laws *)
(* ===================================================================== *)

Section Laws.
Variable env : Env.

Lemma dot_col2 J ux uy :
  Forall (fun row => length row = 2%nat) J ->
  map (fun u_Pi => nth 0 u_Pi 0) (dot J [[ux]; [uy]]) = spec_apply_J J (ux, uy).
Proof.
  induction 1 as [|row J Hrow _ IH]; [reflexivity|].
  destruct row as [|a [|b [|? ?]]]; try discriminate.
  unfold dot, spec_apply_J in *. cbn in *. rewrite IH. f_equal. ring.
Qed.

Lemma sum_multiply_zeros row n : sum (multiply row (repeat 0 n)) = 0.
Proof.
  revert n. induction row as [|a row IH]; intros [|n]; cbn; try reflexivity.
  unfold multiply in IH. rewrite IH. ring.
Qed.

Lemma col_zeros n : col 0 (repeat [0] n) = repeat 0 n.
Proof. induction n; cbn; [reflexivity|]. unfold col in IHn. rewrite IHn. reflexivity. Qed.

Lemma dot_zero_col J n : dot J (repeat [0] (S n)) = repeat [0] (length J).
Proof.
  unfold dot. cbn [repeat ncols length seq map].
  change ([0] :: repeat [0] n) with (repeat [0] (S n)).
  rewrite col_zeros.
  induction J as [|row J IH]; [reflexivity|].
  cbn [map length]. rewrite IH, sum_multiply_zeros. reflexivity.
Qed.

Lemma dot_rows_length A B :
  Forall (fun r => length r = ncols B) (dot A B).
Proof.
  unfold dot. apply Forall_forall. intros r Hr.
  apply in_map_iff in Hr. destruct Hr as [row [<- _]].
  rewrite length_map, length_seq. reflexivity.
Qed.

Lemma madd_zero_col U n :
  (length U <= n)%nat -> Forall (fun r => length r = 1%nat) U ->
  madd U (repeat [0] n) = U.
Proof.
  intros Hl HU. revert n Hl.
  induction HU as [|r U Hr _ IH]; intros n Hl; [reflexivity|].
  destruct n as [|n]; cbn in Hl; [lia|].
  destruct r as [|x [|? ?]]; try discriminate.
  unfold madd in *. cbn. rewrite IH by lia. rewrite Rplus_0_r. reflexivity.
Qed.

Lemma mu_list_at_target :
  mu_list flpJointPosSp_l flpJointPosSp_l kmu_l = repeat 0 4.
Proof.
  unfold flpJointPosSp_l, kmu_l. cbn. repeat (f_equal; try ring).
Qed.

Opaque deyaw trAndOri2dq dot madd dqElementwiseMul dq2trAndQuatArray
  DualQuat.mul Quat.mul DualQuat.conj Quat.conj vec8 multiply.

(** What a pass of the loop publishes in the Orientation mode. *)
Lemma tick_orientation side s g j i g0 :
  active s = true -> msg_grndDist s = Some g ->
  msg_jointState s = Some j -> msg_imu s = Some i ->
  nth_error (vec g) 0 = Some g0 ->
  ctrlType_curr s = CT_orientation ->
  let x_o_R_q := deyaw (orientation i) in
  let e_o_R_q := Quat.mul (Quat.conj (x_sp_ori_q s)) x_o_R_q in
  let u_o_R_q := multiply (components (Quat.conj (kp_o_q s)))
                          (components e_o_R_q) in
  fst (tick env (Some side) s) =
    [cmd_msg (dot (J_ori_dagger (kin s))
                  [[nth 1 u_o_R_q 0]; [nth 2 u_o_R_q 0]]);
     DqPoseCurr (vec8 (trAndOri2dq (0, 0, v3z g0) x_o_R_q));
     DqSetPoint (vec8 (x_sp_dq s));
     DqError (vec8 (DQ8 (qw e_o_R_q) (qx e_o_R_q) (qy e_o_R_q) (qz e_o_R_q)
                        0 0 0 0));
     DqSP (vec8 (kp_a_dq s))].
Proof.
  intros Ha Hg Hj Hi Hg0 Hm.
  unfold tick, nodeMain_pass, bind, get at 1. rewrite Ha, Hg, Hj, Hi.
  enter_cycle.
  rewrite Hg0. cbn [ret raise]. rewrite Hm. cbn. rewrite Hm. cbn. reflexivity.
Qed.

(** What a pass of the loop publishes in the OrientationNullSpace mode. *)
Lemma tick_nullspace side s g j i g0 mu :
  active s = true -> msg_grndDist s = Some g ->
  msg_jointState s = Some j -> msg_imu s = Some i ->
  nth_error (vec g) 0 = Some g0 ->
  ctrlType_curr s = CT_orientationNullSpace ->
  reshape_col 4 (mu_list (correctFlippersJointSignal env (skipn 4 (position j)))
                         flpJointPosSp_l kmu_l) = Some mu ->
  let x_o_R_q := deyaw (orientation i) in
  let e_o_R_q := Quat.mul (Quat.conj (x_sp_ori_q s)) x_o_R_q in
  let u_o_R_q := multiply (components (Quat.conj (kp_o_q s)))
                          (components e_o_R_q) in
  fst (tick env (Some side) s) =
    [cmd_msg (madd (dot (J_ori_dagger (kin s))
                        [[nth 1 u_o_R_q 0]; [nth 2 u_o_R_q 0]])
                   (dot (J_ori_nsproj (kin s)) mu));
     DqPoseCurr (vec8 (trAndOri2dq (0, 0, v3z g0) x_o_R_q));
     DqSetPoint (vec8 (x_sp_dq s));
     DqError (vec8 (DQ8 (qw e_o_R_q) (qx e_o_R_q) (qy e_o_R_q) (qz e_o_R_q)
                        0 0 0 0));
     DqSP (vec8 (kp_a_dq s))].
Proof.
  intros Ha Hg Hj Hi Hg0 Hm Hmu.
  unfold tick, nodeMain_pass, bind, get at 1. rewrite Ha, Hg, Hj, Hi.
  enter_cycle.
  rewrite Hg0. cbn [ret raise]. rewrite Hm, Hmu. cbn. rewrite Hm. cbn. reflexivity.
Qed.

(** What a pass of the loop publishes in the Articulation mode. *)
Lemma tick_articulation side s g j i g0 :
  active s = true -> msg_grndDist s = Some g ->
  msg_jointState s = Some j -> msg_imu s = Some i ->
  nth_error (vec g) 0 = Some g0 ->
  ctrlType_curr s = CT_articulation ->
  let x_o_R_q := deyaw (orientation i) in
  let x_a_R_dq := trAndOri2dq (0, 0, v3z g0) x_o_R_q in
  let e := DualQuat.mul (DualQuat.conj (x_sp_dq s)) x_a_R_dq in
  let u_a_R_dq := dqElementwiseMul (DualQuat.conj (kp_a_dq s)) e in
  fst (tick env (Some side) s) =
    [cmd_msg (dot (J_art_dagger (kin s))
                  [[nth 0 (nth 2 (fst (dq2trAndQuatArray u_a_R_dq)) []) 0];
                   [nth 1 (components (snd (dq2trAndQuatArray u_a_R_dq))) 0];
                   [nth 2 (components (snd (dq2trAndQuatArray u_a_R_dq))) 0]]);
     DqPoseCurr (vec8 x_a_R_dq);
     DqSetPoint (vec8 (x_sp_dq s));
     DqError (vec8 e);
     DqSP (vec8 (kp_a_dq s))].
Proof.
  intros Ha Hg Hj Hi Hg0 Hm.
  unfold tick, nodeMain_pass, bind, get at 1. rewrite Ha, Hg, Hj, Hi.
  enter_cycle.
  rewrite Hg0. cbn [ret raise]. rewrite Hm. cbn.
  destruct (dq2trAndQuatArray _) as [tr q]. cbn. rewrite Hm. cbn. reflexivity.
Qed.

Transparent deyaw trAndOri2dq dot madd dqElementwiseMul dq2trAndQuatArray
  DualQuat.mul Quat.mul DualQuat.conj Quat.conj vec8 multiply.

Lemma trAndOri2dq_identity :
  trAndOri2dq (0, 0, 0) Quat.one = DualQuat.one.
Proof.
  unfold trAndOri2dq, DualQuat.mul, DualQuat.one, DQ8, Quat.mul, Quat.add.
  cbn. f_equal; f_equal; field.
Qed.

Lemma convert_zero :
  convertSetPoints2DqFormat (0, 0, 0) (0, 0, 0) = (Quat.one, DualQuat.one).
Proof.
  unfold convertSetPoints2DqFormat. rewrite rpy2quat_zero.
  fold Quat.one. rewrite trAndOri2dq_identity. reflexivity.
Qed.

(** The articulation signal vanishes when the pose is the identity
    set-point. *)
Lemma articulation_signal_at_identity kp :
  let e := DualQuat.mul (DualQuat.conj DualQuat.one) DualQuat.one in
  let u := dqElementwiseMul (DualQuat.conj kp) e in
  [[nth 0 (nth 2 (fst (dq2trAndQuatArray u)) []) 0];
   [nth 1 (components (snd (dq2trAndQuatArray u))) 0];
   [nth 2 (components (snd (dq2trAndQuatArray u))) 0]] = repeat [0] 3.
Proof.
  destruct kp as [[pw px py pz] [dw dx dy dz]].
  cbn. repeat (f_equal; try ring).
Qed.

End Laws.

(* ===================================================================== *)
(** ** The specification's claims *)
(* ===================================================================== *)

Lemma sample_kin_shapes :
  kin_shapes (one_time_kin Sample.env Sample.Jo Sample.Ja).
Proof.
  unfold kin_shapes, shape. cbn.
  repeat split; repeat constructor.
Qed.

Lemma sample_well_formed h : well_formed Sample.env (Sample.s_ready h).
Proof.
  split; [|split].
  - exists (Sample.grnd h). split; [reflexivity | discriminate].
  - intros _. exists Sample.joints_at_target. split; [reflexivity|].
    cbn. lia.
  - exact sample_kin_shapes.
Qed.


Lemma sample_moore_penrose : moore_penrose Sample.Jo Sample.Jo_pinv.
Proof.
  unfold moore_penrose, Sample.Jo, Sample.Jo_pinv.
  repeat split; cbn; repeat (f_equal; try lra).
Qed.

Lemma one_time_kin_nsproj_rows env Jo Ja :
  length Jo = 4%nat -> length (J_ori_nsproj (one_time_kin env Jo Ja)) = 4%nat.
Proof.
  intros H. unfold one_time_kin, msub, dot. cbn [J_ori_nsproj].
  rewrite length_map, length_combine, length_map, H. reflexivity.
Qed.

(** C1 (the code departs from it).  The claim: the yaw angle read off the
    de-yawed orientation is zero for every IMU orientation.  On the IMU
    orientation (1/sqrt 2, 0, 0, 1/sqrt 2), a quarter turn of heading
    (yaw PI/2), lines 160-163 multiply the orientation by the yaw
    quaternion of the same angle instead of its conjugate: the result is
    (0, 0, 0, 1), a half turn of heading, whose yaw is PI and not 0. *)
Theorem deyaw_quarter_turn :
  let q_imu := orientation Sample.imu_quarter_turn in
  snd (quat2rpy q_imu) = PI / 2 /\
  deyaw q_imu = mkQ 0 0 0 1 /\
  snd (quat2rpy (deyaw q_imu)) = PI /\
  snd (quat2rpy (deyaw q_imu)) <> 0.
Proof.
  cbn [orientation Sample.imu_quarter_turn].
  destruct deyaw_quarter_turn_eval as (H1 & H2 & H3).
  repeat split; try assumption.
  - rewrite H2. exact H3.
  - rewrite H2, H3. pose proof PI_RGT_0. lra.
Qed.

(** C2.  A set-control-mode request with a value in {1, 2, 3} replaces
    the active mode by that value and answers with the new mode; any
    other value (0 and 4 among them) leaves the node state, the active
    mode included, as it was and answers with -1. *)
Theorem setCtrlType_spec (s : state) (value : Z) :
  srvcllbck_setCtrlType value s =
    if valid_mode value then (set_ctrlType_curr value s, value)
    else (s, (-1)%Z).
Proof.
  unfold srvcllbck_setCtrlType, valid_mode.
  change (Z.of_nat (length chassisCtrlType)) with 3%Z.
  destruct (Z.leb_spec 1 value), (Z.leb_spec value 3),
    (Z.eqb_spec value 1), (Z.eqb_spec value 2), (Z.eqb_spec value 3);
    cbn; try reflexivity; lia.
Qed.

(** C3, as stated, fails: the node is active and the three snapshots are
    there, but the ground-distance message carries an empty array; the
    pass of the loop stops at [vec[0]] with IndexError and publishes no
    command. *)
Lemma ready_tick_without_command :
  active Sample.s_empty_grnd = true /\
  ready Sample.s_empty_grnd = true /\
  tick Sample.env (Some Sample.side) Sample.s_empty_grnd
    = ([], inl IndexError).
Proof. repeat split. Qed.

(** C3, amended.  While one of the three snapshots has never been
    received a pass of the loop publishes nothing and leaves the state
    as it is; once the three are there no event unsets them; and every
    pass of an active node whose snapshots are there and well formed (a
    ground-distance array with an entry, in the null-space mode at least
    four corrected flipper angles, Jacobians of the shapes of the data
    model), with the drive-side parameter on the parameter server,
    publishes exactly one command. *)
Theorem loop_gating (env : Env) :
  (forall lookup s, ready s = false -> tick env lookup s = ([], inr s)) /\
  (forall ev s o s',
      ready s = true -> step env ev s = (o, inr s') -> ready s' = true) /\
  (forall side s,
      active s = true -> ready s = true -> well_formed env s ->
      length (commands (fst (tick env (Some side) s))) = 1%nat).
Proof.
  split; [|split].
  - intros lookup s. apply tick_not_ready.
  - intros ev s o s'. apply step_ready.
  - intros side s. apply tick_commands_one.
Qed.

Lemma loop_gating_witness :
  length (commands (fst (tick Sample.env (Some Sample.side)
                              (Sample.s_ready 0)))) = 1%nat.
Proof.
  apply (proj2 (proj2 (loop_gating Sample.env))).
  - reflexivity.
  - reflexivity.
  - apply sample_well_formed.
Defined.

(** C4.  In the Orientation mode a pass of the loop publishes, for every
    de-yawed orientation, set-point orientation and gain: as command,
    [J_ori_dagger] applied to the 2-vector of the roll and pitch
    components of the elementwise product of the conjugated gain with the
    error quaternion conjugate(set-point) x current; and as pose error,
    that error quaternion padded with a zero dual part. *)
Theorem orientation_mode_command (env : Env) (side : param_value)
    (s : state) (g : Vector3ArrayStamped) (j : JointState) (i : Imu)
    (g0 : Vector3) :
  active s = true -> msg_grndDist s = Some g ->
  msg_jointState s = Some j -> msg_imu s = Some i ->
  nth_error (vec g) 0 = Some g0 ->
  ctrlType_curr s = CT_orientation ->
  shape 4 2 (J_ori_dagger (kin s)) ->
  let x_o_R_q := deyaw (orientation i) in
  let e := spec_orientation_error (x_sp_ori_q s) x_o_R_q in
  fst (tick env (Some side) s) =
    [CmdVelFlipperSpace
       (map (mkVector3 0 0)
            (spec_orientation_command (J_ori_dagger (kin s))
               (x_sp_ori_q s) (kp_o_q s) x_o_R_q));
     DqPoseCurr (vec8 (trAndOri2dq (0, 0, v3z g0) x_o_R_q));
     DqSetPoint (vec8 (x_sp_dq s));
     DqError (vec8 (DQ8 (qw e) (qx e) (qy e) (qz e) 0 0 0 0));
     DqSP (vec8 (kp_a_dq s))].
Proof.
  intros Ha Hg Hj Hi Hg0 Hm [_ HJ] x_o_R_q e.
  rewrite (tick_orientation env side s g j i g0 Ha Hg Hj Hi Hg0 Hm).
  fold x_o_R_q. f_equal. unfold cmd_msg. f_equal.
  rewrite <- (map_map (fun u_Pi => nth 0 u_Pi 0) (mkVector3 0 0)).
  f_equal. apply dot_col2. exact HJ.
Qed.

Lemma orientation_mode_command_witness :
  commands (fst (tick Sample.env (Some Sample.side) (Sample.s_ready 0)))
  = [CmdVelFlipperSpace
       (map (mkVector3 0 0)
            (spec_orientation_command Sample.Jo
               (x_sp_ori_q Sample.s0) (kp_o_q Sample.s0)
               (deyaw Quat.one)))].
Proof.
  rewrite (orientation_mode_command Sample.env Sample.side (Sample.s_ready 0)
             (Sample.grnd 0) Sample.joints_at_target Sample.imu_level
             (mkVector3 0 0 0)).
  - reflexivity.
  - reflexivity.
  - reflexivity.
  - reflexivity.
  - reflexivity.
  - reflexivity.
  - reflexivity.
  - split; [reflexivity | repeat constructor].
Defined.

(** C5.  In the OrientationNullSpace mode, when the four sign-corrected
    flipper angles equal their targets, a pass of the loop publishes what
    it publishes from the same state in the Orientation mode, the
    command first of all: the null-space bias adds nothing. *)
Theorem nullspace_bias_vanishes_at_target (env : Env) (side : param_value)
    (s : state) (g : Vector3ArrayStamped) (j : JointState) (i : Imu)
    (g0 : Vector3) (Jo Ja : matrix) :
  active s = true -> msg_grndDist s = Some g ->
  msg_jointState s = Some j -> msg_imu s = Some i ->
  nth_error (vec g) 0 = Some g0 ->
  kin s = one_time_kin env Jo Ja ->
  shape 4 2 Jo -> shape 2 4 (pinv env Jo) ->
  ctrlType_curr s = CT_orientationNullSpace ->
  correctFlippersJointSignal env (skipn 4 (position j)) = flpJointPosSp_l ->
  fst (tick env (Some side) s)
  = fst (tick env (Some side) (set_ctrlType_curr CT_orientation s)).
Proof.
  intros Ha Hg Hj Hi Hg0 Hk [HJl _] _ Hm Hflp.
  rewrite (tick_orientation env side (set_ctrlType_curr CT_orientation s)
             g j i g0 Ha Hg Hj Hi Hg0 eq_refl).
  rewrite (tick_nullspace env side s g j i g0 (repeat [0] 4)
             Ha Hg Hj Hi Hg0 Hm).
  - cbn [x_sp_ori_q kp_o_q kin x_sp_dq kp_a_dq set_ctrlType_curr].
    rewrite dot_zero_col, madd_zero_col; [reflexivity | |].
    + rewrite Hk, one_time_kin_nsproj_rows by exact HJl.
      unfold dot. rewrite length_map. cbn [J_ori_dagger one_time_kin].
      rewrite HJl. apply Nat.le_refl.
    + apply (dot_rows_length _ [[_]; [_]]).
  - rewrite Hflp, mu_list_at_target. reflexivity.
Qed.

Lemma nullspace_bias_vanishes_at_target_witness :
  fst (tick Sample.env (Some Sample.side) Sample.s_nullspace)
  = fst (tick Sample.env (Some Sample.side)
           (set_ctrlType_curr CT_orientation Sample.s_nullspace)).
Proof.
  apply (nullspace_bias_vanishes_at_target Sample.env Sample.side
           Sample.s_nullspace (Sample.grnd 0) Sample.joints_at_target
           Sample.imu_level (mkVector3 0 0 0) Sample.Jo Sample.Ja).
  - reflexivity.
  - reflexivity.
  - reflexivity.
  - reflexivity.
  - reflexivity.
  - reflexivity.
  - split; [reflexivity | repeat constructor].
  - split; [reflexivity | repeat constructor].
  - reflexivity.
  - reflexivity.
Defined.

(** C6.  For every 4x2 orientation Jacobian [J_ori_dagger] whose
    [J_ori] is its Moore-Penrose pseudo-inverse, the null-space projector
    P = I - J_ori_dagger J_ori computed at start-up satisfies P P = P and
    J_ori_dagger J_ori P = 0, in exact real arithmetic. *)
Theorem nullspace_projector_idempotent (env : Env) (Jo Ja : matrix) :
  shape 4 2 Jo -> shape 2 4 (pinv env Jo) ->
  moore_penrose Jo (pinv env Jo) ->
  let k := one_time_kin env Jo Ja in
  dot (J_ori_nsproj k) (J_ori_nsproj k) = J_ori_nsproj k /\
  dot (dot (J_ori_dagger k) (J_ori k)) (J_ori_nsproj k) = zeros 4 4.
Proof.
  intros HA HB (H1 & _). cbn [one_time_kin J_ori_nsproj J_ori_dagger J_ori].
  apply projector; assumption.
Qed.

Lemma nullspace_projector_idempotent_witness :
  let k := one_time_kin Sample.env Sample.Jo Sample.Ja in
  dot (J_ori_nsproj k) (J_ori_nsproj k) = J_ori_nsproj k /\
  dot (dot (J_ori_dagger k) (J_ori k)) (J_ori_nsproj k) = zeros 4 4.
Proof.
  apply (nullspace_projector_idempotent Sample.env Sample.Jo Sample.Ja).
  - split; [reflexivity | repeat constructor].
  - split; [reflexivity | repeat constructor].
  - exact sample_moore_penrose.
Defined.

(** C7.  In the Articulation mode, when the set-point is the zero
    translation with the identity orientation and the current
    articulation pose equals the set-point pose, the command a pass of
    the loop publishes is the zero 4-vector, whatever the gains. *)
Theorem articulation_at_identity_setpoint (env : Env) (side : param_value)
    (s : state) (g : Vector3ArrayStamped) (j : JointState) (i : Imu)
    (g0 : Vector3) :
  active s = true -> msg_grndDist s = Some g ->
  msg_jointState s = Some j -> msg_imu s = Some i ->
  nth_error (vec g) 0 = Some g0 ->
  ctrlType_curr s = CT_articulation ->
  shape 4 3 (J_art_dagger (kin s)) ->
  x_sp_dq s = snd (convertSetPoints2DqFormat (0, 0, 0) (0, 0, 0)) ->
  trAndOri2dq (0, 0, v3z g0) (deyaw (orientation i)) = x_sp_dq s ->
  commands (fst (tick env (Some side) s)) = [zero_cmd].
Proof.
  intros Ha Hg Hj Hi Hg0 Hm [HJ _] Hsp Hx.
  rewrite (tick_articulation env side s g j i g0 Ha Hg Hj Hi Hg0 Hm).
  rewrite Hx, Hsp, convert_zero. cbn [snd].
  rewrite articulation_signal_at_identity, dot_zero_col, HJ.
  reflexivity.
Qed.

Lemma articulation_at_identity_setpoint_witness :
  commands (fst (tick Sample.env (Some Sample.side) Sample.s_articulation))
  = [zero_cmd].
Proof.
  apply (articulation_at_identity_setpoint Sample.env Sample.side
           Sample.s_articulation (Sample.grnd 0) Sample.joints_at_target
           Sample.imu_level (mkVector3 0 0 0)).
  - reflexivity.
  - reflexivity.
  - reflexivity.
  - reflexivity.
  - reflexivity.
  - reflexivity.
  - split; [reflexivity | repeat constructor].
  - reflexivity.
  - cbn [v3z orientation Sample.imu_level].
    rewrite deyaw_one, trAndOri2dq_identity.
    change (x_sp_dq Sample.s_articulation)
      with (snd (convertSetPoints2DqFormat (0, 0, 0) (0, 0, 0))).
    rewrite convert_zero. reflexivity.
Defined.

(** C8, as stated, fails: the set-point RPY (0, 0, 2 PI) has pitch 0,
    away from gimbal lock, and reading the set-point back returns the
    RPY (0, 0, 0), a full turn of yaw away from what was set. *)
Lemma get_after_set_full_turn :
  0 <> PI / 2 /\ 0 <> - (PI / 2) /\
  snd (get_after_set (1 / 10, 0, 3 / 10) (0, 0, 2 * PI) Sample.s0)
    = (0, 0, 0) /\
  (0, 0, 0) <> (0, 0, 2 * PI).
Proof.
  pose proof PI_RGT_0 as Hpi.
  split; [lra|]. split; [lra|]. split.
  - unfold get_after_set, srvcllbck_getPoseSetPoint,
      srvcllbck_setPoseSetPoint, convertSetPoints2DqFormat, dq2rpy.
    cbn [fst snd x_sp_dq set_x_sp].
    rewrite rpy2quat_yaw. replace (2 * PI / 2) with PI by field.
    rewrite cos_PI, sin_PI. cbv beta iota zeta.
    cbn [fst snd x_sp_dq set_x_sp]. rewrite P_trAndOri2dq.
    unfold quat2rpy. cbn [qw qx qy qz].
    rewrite !atan2_zero_right by lra.
    replace (2 * (-1 * 0 - 0 * 0)) with 0 by ring. rewrite asin_0.
    reflexivity.
  - intros [= H]. lra.
Qed.

(** C8, amended.  For every translation and every RPY set-point in the
    principal range (roll and yaw strictly between -PI and PI, pitch
    strictly between -PI/2 and PI/2), setting the pose set-point and then
    reading it back returns the same translation and the same
    roll-pitch-yaw, in exact real arithmetic; the specification's
    ([0.1, 0, 0.3], [0, 0.2, 0]) is one such set-point. *)
Theorem get_after_set_roundtrip (s : state) (tx ty tz r p y : R) :
  - PI < r < PI -> - (PI / 2) < p < PI / 2 -> - PI < y < PI ->
  get_after_set (tx, ty, tz) (r, p, y) s = ([tx; ty; tz], (r, p, y)).
Proof.
  intros Hr Hp Hy.
  unfold get_after_set, srvcllbck_getPoseSetPoint, srvcllbck_setPoseSetPoint,
    convertSetPoints2DqFormat, dq2rpy, dqExtractTransV3.
  cbn [fst snd x_sp_dq set_x_sp].
  pose proof (quat2rpy_rpy2quat r p y Hr Hp Hy) as Hq.
  pose proof (rpy2quat_norm r p y) as Hn.
  destruct (rpy2quat (r, p, y)) as [[[a b] c] d].
  cbn [fst snd x_sp_dq set_x_sp].
  rewrite translation_trAndOri2dq by exact Hn.
  rewrite P_trAndOri2dq, Hq. reflexivity.
Qed.

Lemma get_after_set_roundtrip_witness :
  get_after_set (1 / 10, 0, 3 / 10) (0, 2 / 10, 0) Sample.s0
  = ([1 / 10; 0; 3 / 10], (0, 2 / 10, 0)).
Proof.
  pose proof PI_RGT_0 as Hpi. pose proof PI2_3_2 as Hpi2.
  apply get_after_set_roundtrip; lra.
Defined.

(** A remark on the fall-back branch, outside what the node can reach:
    were the mode tag forced outside {1, 2, 3} before any pass had bound
    the local [e_a_R_dq], the pass would publish the zero command, the
    current pose and the set-point and stop with UnboundLocalError at
    line 250. *)
Lemma invalid_mode_first_tick_raises :
  valid_mode (ctrlType_curr Sample.s_mode0) = false /\
  tick Sample.env (Some Sample.side) Sample.s_mode0
    = ([zero_cmd;
        DqPoseCurr (vec8 (trAndOri2dq (0, 0, 0) (deyaw Quat.one)));
        DqSetPoint (vec8 (x_sp_dq Sample.s0))],
       inl UnboundLocalError).
Proof. split; reflexivity. Qed.



(** C10.  Two runs of the node that receive the same events, except for
    the value the parameter server holds for the drive side at start-up
    and at each pass of the loop, publish the same messages at every
    event: the same commands and the same pose, set-point, error and
    gain diagnostics. *)
Theorem drive_side_noninterference (env : Env) (act : bool) (Jo Ja : matrix)
    (side1 side2 : param_value) (evs1 evs2 : list event) :
  Forall2 same_but_side evs1 evs2 ->
  fst (run env evs1 (init env side1 act Jo Ja))
  = fst (run env evs2 (init env side2 act Jo Ja)).
Proof.
  intros H.
  change (init env side2 act Jo Ja)
    with (set_drive_side side2 (init env side1 act Jo Ja)).
  apply run_side. exact H.
Qed.

Lemma drive_side_noninterference_witness :
  fst (run Sample.env
           [MsgImu Sample.imu_level; MsgGrndDist (Sample.grnd 0);
            MsgJointState Sample.joints_at_target; Tick (Some (PStr "a"))]
           (init Sample.env (PStr "a") true Sample.Jo Sample.Ja))
  = fst (run Sample.env
           [MsgImu Sample.imu_level; MsgGrndDist (Sample.grnd 0);
            MsgJointState Sample.joints_at_target; Tick (Some (PStr "b"))]
           (init Sample.env (PStr "b") true Sample.Jo Sample.Ja)).
Proof.
  apply drive_side_noninterference.
  do 3 (apply Forall2_cons; [left; reflexivity|]).
  apply Forall2_cons; [|apply Forall2_nil].
  right. exists (PStr "a"), (PStr "b"). split; reflexivity.
Defined.

(* ===================================================================== *)
(** ** Further properties: services and start-up *)
(* ===================================================================== *)

Lemma get_key_by_value_none d v :
  get_key_by_value d v = None <-> (forall k, ~ In (k, v) d).
Proof.
  induction d as [|[k' v'] d IH]; cbn.
  - split; [intros _ k [] | reflexivity].
  - destruct (Z.eqb_spec v' v) as [->|Hne].
    + split; [discriminate|]. intros H. exfalso. apply (H k'). left. reflexivity.
    + rewrite IH. split.
      * intros H k [[= _ E]|Hin]; [contradiction | exact (H k Hin)].
      * intros H k Hin. apply (H k). right. exact Hin.
Qed.

Lemma set_modes_mode vs : forall s,
  ctrlType_curr (set_modes vs s) = last_accepted vs (ctrlType_curr s).
Proof.
  induction vs as [|v vs IH]; intros s; [reflexivity|].
  unfold set_modes, last_accepted in *. cbn [fold_left]. rewrite IH. f_equal.
  unfold srvcllbck_setCtrlType, valid_mode.
  change (Z.of_nat (length chassisCtrlType)) with 3%Z.
  destruct (Z.leb_spec 1 v), (Z.leb_spec v 3),
    (Z.eqb_spec v 1), (Z.eqb_spec v 2), (Z.eqb_spec v 3);
    cbn; try reflexivity; lia.
Qed.

(** getParamWithWait *)
Lemma getParamWithWait_never fuel : forall server t,
  (forall n, server (t + n)%nat = None) ->
  getParamWithWait fuel server t = None.
Proof.
  induction fuel as [|fuel IH]; intros server t H; [reflexivity|].
  cbn. pose proof (H O) as H0. rewrite Nat.add_0_r in H0. rewrite H0.
  rewrite IH; [reflexivity|].
  intros n. replace (S t + n)%nat with (t + S n)%nat by lia. apply H.
Qed.

(* ===================================================================== *)
(** ** Further properties: passes of the loop *)
(* ===================================================================== *)

Section Passes.
Variable env : Env.

Opaque deyaw trAndOri2dq dot madd dqElementwiseMul dq2trAndQuatArray
  DualQuat.mul Quat.mul DualQuat.conj Quat.conj vec8 multiply.

Lemma valid_mode_true_cases v :
  valid_mode v = true ->
  v = CT_orientation \/ v = CT_orientationNullSpace \/ v = CT_articulation.
Proof.
  unfold valid_mode, CT_orientation, CT_orientationNullSpace, CT_articulation.
  destruct (Z.eqb_spec v 1), (Z.eqb_spec v 2), (Z.eqb_spec v 3); cbn;
    intros H; try discriminate; auto.
Qed.

(** A pass of the loop writes [drive_side] and the local [e_a_R_dq] only. *)
Lemma tick_same_settings lookup s o s' :
  tick env lookup s = (o, inr s') -> same_settings s s'.
Proof.
  unfold same_settings, tick, nodeMain_pass, bind, get at 1.
  destruct (active s) eqn:Ea; [|cbn; intros [= <- <-]; auto 20].
  destruct (msg_grndDist s) as [g|] eqn:Eg; [|cbn; intros [= <- <-]; auto 20].
  destruct (msg_jointState s) as [j|] eqn:Ej; [|cbn; intros [= <- <-]; auto 20].
  destruct (msg_imu s) as [i|] eqn:Ei; [|cbn; intros [= <- <-]; auto 20].
  enter_cycle.
  destruct (nth_error (vec g) 0) as [g0|]; [|cbn; discriminate].
  cbn [ret raise].
  destruct (ctrlType_curr s =? CT_orientation)%Z eqn:E1;
  destruct (ctrlType_curr s =? CT_orientationNullSpace)%Z eqn:E2;
  destruct (ctrlType_curr s =? CT_articulation)%Z eqn:E3;
  cbn [orb];
  try destruct (reshape_col 4 _) as [mu|];
  try destruct (dq2trAndQuatArray _) as [tr q];
  destruct lookup as [side|];
  cbn; rewrite ?E1, ?E2, ?E3; cbn;
  try destruct (e_a_R_dq s); cbn;
  try discriminate; intros [= <- <-]; cbn; auto 20.
Qed.

(** In a mode of the dict a pass publishes nothing, or the five messages
    and completes. *)
Lemma tick_all_or_nothing lookup s :
  valid_mode (ctrlType_curr s) = true ->
  fst (tick env lookup s) = [] \/
  exists c p e s',
    tick env lookup s =
      ([CmdVelFlipperSpace c; DqPoseCurr p; DqSetPoint (vec8 (x_sp_dq s));
        DqError e; DqSP (vec8 (kp_a_dq s))], inr s').
Proof.
  intros Hv. apply valid_mode_true_cases in Hv.
  unfold tick, nodeMain_pass, bind, get at 1 2.
  destruct (active s) eqn:Ea; [|left; reflexivity].
  destruct (msg_grndDist s) as [g|] eqn:Eg; [|left; reflexivity].
  destruct (msg_jointState s) as [j|] eqn:Ej; [|left; reflexivity].
  destruct (msg_imu s) as [i|] eqn:Ei; [|left; reflexivity].
  enter_cycle.
  destruct (nth_error (vec g) 0) as [g0|]; [|left; reflexivity].
  cbn [ret raise].
  destruct Hv as [Hm | [Hm | Hm]]; rewrite Hm; cbn [Z.eqb orb CT_orientation
    CT_orientationNullSpace CT_articulation Pos.eqb];
  try destruct (reshape_col 4 _) as [mu|];
  try destruct (dq2trAndQuatArray _) as [tr q];
  destruct lookup as [side|]; cbn; rewrite ?Hm; cbn;
  solve [left; reflexivity | right; repeat eexists].
Qed.


Lemma tick_empty_vec lookup s g j i :
  active s = true -> msg_grndDist s = Some g ->
  msg_jointState s = Some j -> msg_imu s = Some i ->
  vec g = [] ->
  tick env lookup s = ([], inl IndexError).
Proof.
  intros Ha Hg Hj Hi Hv.
  unfold tick, nodeMain_pass, bind, get at 1. rewrite Ha, Hg, Hj, Hi.
  enter_cycle. rewrite Hv. reflexivity.
Qed.

Lemma reshape_col_none n l :
  length l <> n -> reshape_col n l = None.
Proof.
  intros H. unfold reshape_col.
  destruct (Nat.eqb_spec (length l) n); [contradiction | reflexivity].
Qed.

Lemma mu_list_short flp :
  (length flp < 4)%nat ->
  length (mu_list flp flpJointPosSp_l kmu_l) = length flp.
Proof.
  intros H. unfold flpJointPosSp_l, kmu_l.
  destruct flp as [|a [|b [|c [|d flp]]]]; cbn in *; try reflexivity; lia.
Qed.

Lemma tick_short_flippers lookup s g j i g0 :
  active s = true -> msg_grndDist s = Some g ->
  msg_jointState s = Some j -> msg_imu s = Some i ->
  nth_error (vec g) 0 = Some g0 ->
  ctrlType_curr s = CT_orientationNullSpace ->
  (length (correctFlippersJointSignal env (skipn 4 (position j))) < 4)%nat ->
  tick env lookup s = ([], inl ValueError).
Proof.
  intros Ha Hg Hj Hi Hg0 Hm Hl.
  unfold tick, nodeMain_pass, bind, get at 1. rewrite Ha, Hg, Hj, Hi.
  enter_cycle. rewrite Hg0. cbn [ret raise]. rewrite Hm.
  rewrite reshape_col_none by (rewrite mu_list_short; lia).
  reflexivity.
Qed.

Lemma tick_missing_param s :
  active s = true -> ready s = true -> well_formed env s ->
  tick env None s = ([], inl KeyError).
Proof.
  intros Hact Hready ([g [Hg Hvec]] & Hj & _).
  unfold ready in Hready. unfold tick, nodeMain_pass, bind, get at 1.
  rewrite Hact, Hg in *.
  destruct (msg_jointState s) as [j|] eqn:Ej; [|discriminate].
  destruct (msg_imu s) as [i|] eqn:Ei; [|discriminate].
  destruct (vec g) as [|g0 vs] eqn:Ev; [congruence|].
  enter_cycle. rewrite Ev. cbn [nth_error ret raise].
  destruct (Z.eqb_spec (ctrlType_curr s) CT_orientationNullSpace) as [E2|E2].
  - destruct (Hj E2) as [j' [Hj' Hlen]]. injection Hj' as <-.
    rewrite (reshape_col_some 4) by (apply mu_list_length; exact Hlen).
    rewrite orb_true_r. reflexivity.
  - rewrite orb_false_r.
    destruct (ctrlType_curr s =? CT_orientation)%Z; [reflexivity|].
    destruct (ctrlType_curr s =? CT_articulation)%Z; [|reflexivity].
    cbn. destruct (dq2trAndQuatArray _) as [tr q]. reflexivity.
Qed.

(** Nothing is published, and nothing raised, as long as one topic has
    not delivered. *)
Lemma step_silent ev s :
  ready s = false ->
  (is_MsgImu ev = false /\ msg_imu s = None) \/
  (is_MsgGrndDist ev = false /\ msg_grndDist s = None) \/
  (is_MsgJointState ev = false /\ msg_jointState s = None) ->
  exists s', step env ev s = ([], inr s') /\ ready s' = false /\
    (msg_imu s = None -> is_MsgImu ev = false -> msg_imu s' = None) /\
    (msg_grndDist s = None -> is_MsgGrndDist ev = false ->
       msg_grndDist s' = None) /\
    (msg_jointState s = None -> is_MsgJointState ev = false ->
       msg_jointState s' = None).
Proof.
  intros Hr Hq. unfold ready in *.
  destruct ev; cbn [step];
    try (eexists; split; [reflexivity|]; cbn;
         destruct Hq as [[Hev Hn] | [[Hev Hn] | [Hev Hn]]];
         try discriminate Hev; rewrite ?Hn;
         destruct (msg_grndDist s), (msg_jointState s), (msg_imu s);
         repeat split; intros; try discriminate; congruence).
  - unfold srvcllbck_setPoseCtrlGain.
    destruct kp_ori as [[? ?] ?], kp_tr as [[? ?] ?]. cbn.
    eexists; split; [reflexivity|]. cbn. auto.
  - unfold srvcllbck_setCtrlType. destruct (_ && _)%bool; cbn;
      eexists; (split; [reflexivity|]); cbn; auto.
  - rewrite tick_not_ready by exact Hr.
    eexists; split; [reflexivity|]. auto.
Qed.

Lemma run_silent evs : forall s,
  (Forall (fun ev => is_MsgImu ev = false) evs /\ msg_imu s = None) \/
  (Forall (fun ev => is_MsgGrndDist ev = false) evs /\ msg_grndDist s = None) \/
  (Forall (fun ev => is_MsgJointState ev = false) evs /\
     msg_jointState s = None) ->
  exists s', run env evs s = (repeat [] (length evs), inr s').
Proof.
  induction evs as [|ev evs IH]; intros s Hq.
  - exists s. reflexivity.
  - assert (Hr : ready s = false).
    { unfold ready.
      destruct Hq as [[_ Hn] | [[_ Hn] | [_ Hn]]]; rewrite Hn;
        destruct (msg_grndDist s), (msg_jointState s); reflexivity. }
    destruct (step_silent ev s Hr) as (s1 & Hs & _ & Hi & Hg & Hj).
    { destruct Hq as [[Hf Hn] | [[Hf Hn] | [Hf Hn]]];
        inversion Hf; subst; auto. }
    destruct (IH s1) as [s' Hs'].
    { destruct Hq as [[Hf Hn] | [[Hf Hn] | [Hf Hn]]];
        inversion Hf; subst; auto 10. }
    exists s'. cbn. rewrite Hs, Hs'. reflexivity.
Qed.

Transparent deyaw trAndOri2dq dot madd dqElementwiseMul dq2trAndQuatArray
  DualQuat.mul Quat.mul DualQuat.conj Quat.conj vec8 multiply.

End Passes.

(* ===================================================================== *)
(** ** Further properties: the control signals *)
(* ===================================================================== *)

Section More.
Variable env : Env.

Lemma shape_4_1 M : shape 4 1 M ->
  exists a b c d, M = [[a]; [b]; [c]; [d]].
Proof.
  intros [Hl Hf].
  destruct M as [|r1 [|r2 [|r3 [|r4 [|? ?]]]]]; try discriminate.
  repeat match goal with
    H : Forall _ (_ :: _) |- _ => inversion H; subst; clear H end.
  repeat match goal with
    H : length ?r = 1%nat |- _ =>
      destruct r as [|? [|? ?]]; try discriminate; clear H end.
  repeat eexists.
Qed.

Lemma dot_shape r c A B : shape r c A -> shape r (ncols B) (dot A B).
Proof.
  intros [Hl _]. split.
  - unfold dot. rewrite length_map. exact Hl.
  - apply dot_rows_length.
Qed.

Lemma madd_shape_col A B :
  shape 4 1 A -> shape 4 1 B -> shape 4 1 (madd A B).
Proof.
  intros HA HB.
  destruct (shape_4_1 A HA) as (a1 & a2 & a3 & a4 & ->).
  destruct (shape_4_1 B HB) as (b1 & b2 & b3 & b4 & ->).
  split; [reflexivity | repeat constructor].
Qed.

Lemma cmd_msg_col U : shape 4 1 U ->
  exists z1 z2 z3 z4,
    cmd_msg U = CmdVelFlipperSpace
                  [mkVector3 0 0 z1; mkVector3 0 0 z2;
                   mkVector3 0 0 z3; mkVector3 0 0 z4].
Proof.
  intros HU. destruct (shape_4_1 U HU) as (a & b & c & d & ->).
  exists a, b, c, d. reflexivity.
Qed.

(** Orientation x its conjugate has no vector part. *)
Lemma orientation_signal_at_setpoint kp q :
  let e := Quat.mul (Quat.conj q) q in
  let u := multiply (components (Quat.conj kp)) (components e) in
  [[nth 1 u 0]; [nth 2 u 0]] = repeat [0] 2.
Proof.
  destruct kp as [kw kx ky kz], q as [w x y z].
  cbn. repeat (f_equal; try ring).
Qed.

(** [J_ori] sees nothing of what the null-space projector lets through. *)
Lemma nullspace_invisible A B u mu :
  shape 4 2 A -> shape 2 4 B -> dot (dot B A) B = B ->
  shape 2 1 u -> shape 4 1 mu ->
  dot B (madd (dot A u) (dot (msub (eye 4) (dot A B)) mu)) = dot B (dot A u).
Proof.
  intros HA HB H Hu Hmu.
  destruct (shape_4_2 A HA) as (a1 & b1 & a2 & b2 & a3 & b3 & a4 & b4 & ->).
  destruct (shape_2_4 B HB) as (c1 & c2 & c3 & c4 & d1 & d2 & d3 & d4 & ->).
  destruct (shape_4_1 mu Hmu) as (m1 & m2 & m3 & m4 & ->).
  destruct Hu as [Hul Hur].
  destruct u as [|[|u1 [|? ?]] [|[|u2 [|? ?]] [|? ?]]]; try discriminate;
    try (exfalso; inversion Hur as [|? ? Hx Hy]; subst;
         try discriminate Hx; inversion Hy; subst; discriminate).
  cbn in H. injection H as H1 H2 H3 H4 H5 H6 H7 H8.
  cbn. repeat (f_equal; try nsatz).
Qed.

End More.

(* ===================================================================== *)
(** ** Further properties: runs of the node *)
(* ===================================================================== *)

Lemma getParamWithWait_first n : forall fuel server t,
  (n < fuel)%nat ->
  (forall k, (k < n)%nat -> server (t + k)%nat = None) ->
  server (t + n)%nat <> None ->
  getParamWithWait fuel server t
  = Some (n, match server (S (t + n)) with
             | Some v => inr v
             | None => inl KeyError
             end).
Proof.
  induction n as [|n IH]; intros fuel server t Hf Hnone Hsome.
  - destruct fuel as [|fuel]; [lia|]. cbn.
    rewrite Nat.add_0_r in *.
    destruct (server t); [reflexivity | contradiction].
  - destruct fuel as [|fuel]; [lia|]. cbn.
    pose proof (Hnone O ltac:(lia)) as H0. rewrite Nat.add_0_r in H0.
    rewrite H0.
    rewrite (IH fuel server (S t)); [| lia | |].
    + replace (S t + n)%nat with (t + S n)%nat by lia. reflexivity.
    + intros k Hk. replace (S t + k)%nat with (t + S k)%nat by lia.
      apply Hnone. lia.
    + replace (S t + n)%nat with (t + S n)%nat by lia. exact Hsome.
Qed.

Lemma step_kin env ev s o s' :
  step env ev s = (o, inr s') -> kin s' = kin s.
Proof.
  destruct ev; cbn [step]; try (intros [= <- <-]; reflexivity).
  - unfold srvcllbck_setPoseCtrlGain.
    destruct kp_ori as [[? ?] ?], kp_tr as [[? ?] ?]. cbn.
    intros [= <- <-]. reflexivity.
  - unfold srvcllbck_setCtrlType. destruct (_ && _)%bool; cbn;
      intros [= <- <-]; reflexivity.
  - intros Ht. apply tick_same_settings in Ht.
    destruct Ht as (_ & _ & _ & _ & _ & _ & _ & _ & _ & ->). reflexivity.
Qed.

Lemma run_kin env evs : forall s s',
  snd (run env evs s) = inr s' -> kin s' = kin s.
Proof.
  induction evs as [|ev evs IH]; intros s s'; cbn.
  - intros [= <-]. reflexivity.
  - destruct (step env ev s) as [o [e|s1]] eqn:Es; cbn; [discriminate|].
    destruct (run env evs s1) as [os r] eqn:Er. cbn. intros ->.
    rewrite (IH s1 s') by (rewrite Er; reflexivity).
    eapply step_kin; eauto.
Qed.

(** A pass with the snapshots there and well formed publishes a command
    built from a 4x1 signal. *)
Lemma tick_command_signal env side s :
  active s = true -> ready s = true -> well_formed env s ->
  exists U, shape 4 1 U /\
    commands (fst (tick env (Some side) s)) = [cmd_msg U].
Proof.
  intros Ha Hr Hw.
  pose proof Hw as ([g [Hg Hvec]] & Hjs & (HJo & _ & HP & HJa)).
  unfold ready in Hr. rewrite Hg in Hr.
  destruct (msg_jointState s) as [j|] eqn:Ej; [|discriminate].
  destruct (msg_imu s) as [i|] eqn:Ei; [|discriminate].
  destruct (vec g) as [|g0 vs] eqn:Ev; [congruence|].
  assert (Hg0 : nth_error (vec g) 0 = Some g0) by (rewrite Ev; reflexivity).
  destruct (valid_mode (ctrlType_curr s)) eqn:Hv.
  - apply valid_mode_true_cases in Hv. destruct Hv as [Hm | [Hm | Hm]].
    + rewrite (tick_orientation env side s g j i g0 Ha Hg Ej Ei Hg0 Hm).
      eexists. split; [|reflexivity].
      apply (dot_shape 4 2 _ [[_]; [_]]). exact HJo.
    + destruct (Hjs Hm) as [j' [Hj' Hlen]]. injection Hj' as <-.
      rewrite (tick_nullspace env side s g j i g0 _ Ha Hg Ej Ei Hg0 Hm
                 (reshape_col_some 4 _ (mu_list_length _ Hlen))).
      eexists. split; [|reflexivity].
      apply madd_shape_col.
      * apply (dot_shape 4 2 _ [[_]; [_]]). exact HJo.
      * pose proof (mu_list_length _ Hlen) as Hmu.
        destruct (mu_list _ _ _) as [|m1 [|m2 [|m3 [|m4 [|? ?]]]]];
          try discriminate.
        apply (dot_shape 4 4 _ [[_]; [_]; [_]; [_]]). exact HP.
    + rewrite (tick_articulation env side s g j i g0 Ha Hg Ej Ei Hg0 Hm).
      eexists. split; [|reflexivity].
      apply (dot_shape 4 3 _ [[_]; [_]; [_]]). exact HJa.
  - exists [[0]; [0]; [0]; [0]]. split; [split; [reflexivity | repeat constructor]|].
    rewrite (tick_invalid_mode_zero env side s Hv Ha) by
      (try assumption; unfold ready; rewrite Hg, Ej, Ei; reflexivity).
    reflexivity.
Qed.

(* ===================================================================== *)
(** ** Further properties of the node *)
(* ===================================================================== *)

(** X1.  Reading the control gains back after setting them returns the
    three orientation gains and the three translation gains that were
    set, in order. *)
Theorem gains_get_after_set (s : state) (o0 o1 o2 t0 t1 t2 : R) :
  srvcllbck_getPoseCtrlGain
    (fst (srvcllbck_setPoseCtrlGain (o0, o1, o2) (t0, t1, t2) s))
  = ([o0; o1; o2], [t0; t1; t2]).
Proof.
  unfold srvcllbck_getPoseCtrlGain, srvcllbck_setPoseCtrlGain.
  cbn [fst kp_a_dq set_kp]. reflexivity.
Qed.

(** X2.  [srvcllbck_setPoseCtrlGain] on the request arrays: with three
    entries or more in each it sets both gains from the first three; when
    it returns, the orientation gain is the primary part of the
    articulation gain and both scalar parts are 1; when [kp_ori] has
    three entries and [kp_tr] fewer, it raises IndexError after [kp_o_q]
    was replaced and before [kp_a_dq] is, which leaves the two gains
    apart whenever the orientation gain changed; when [kp_ori] has fewer
    than three entries it raises IndexError and changes nothing. *)
Theorem setPoseCtrlGain_req_consistency :
  (forall s o0 o1 o2 ro t0 t1 t2 rt,
      srvcllbck_setPoseCtrlGain_req (o0 :: o1 :: o2 :: ro)
                                    (t0 :: t1 :: t2 :: rt) s
      = (fst (srvcllbck_setPoseCtrlGain (o0, o1, o2) (t0, t1, t2) s),
         inr true)) /\
  (forall s kp_ori kp_tr s' r,
      srvcllbck_setPoseCtrlGain_req kp_ori kp_tr s = (s', inr r) ->
      gains_consistent s') /\
  (forall s o0 o1 o2 ro kp_tr,
      (length kp_tr < 3)%nat ->
      srvcllbck_setPoseCtrlGain_req (o0 :: o1 :: o2 :: ro) kp_tr s
      = (set_kp (mkQ 1 o0 o1 o2) (kp_a_dq s) s, inl IndexError)) /\
  (forall s o0 o1 o2 ro kp_tr,
      (length kp_tr < 3)%nat ->
      gains_consistent s -> kp_o_q s <> mkQ 1 o0 o1 o2 ->
      ~ gains_consistent
          (fst (srvcllbck_setPoseCtrlGain_req (o0 :: o1 :: o2 :: ro)
                                              kp_tr s))) /\
  (forall s kp_ori kp_tr,
      (length kp_ori < 3)%nat ->
      srvcllbck_setPoseCtrlGain_req kp_ori kp_tr s = (s, inl IndexError)).
Proof.
  assert (Hshort : forall s o0 o1 o2 ro kp_tr,
             (length kp_tr < 3)%nat ->
             srvcllbck_setPoseCtrlGain_req (o0 :: o1 :: o2 :: ro) kp_tr s
             = (set_kp (mkQ 1 o0 o1 o2) (kp_a_dq s) s, inl IndexError)).
  { intros s o0 o1 o2 ro kp_tr Hl.
    destruct kp_tr as [|t0 [|t1 [|t2 rt]]]; cbn in Hl; try reflexivity; lia. }
  split; [|split; [|split; [|split]]].
  - intros. reflexivity.
  - intros s kp_ori kp_tr s' r.
    destruct kp_ori as [|o0 [|o1 [|o2 ro]]]; cbn; try discriminate.
    destruct kp_tr as [|t0 [|t1 [|t2 rt]]]; cbn; try discriminate.
    intros [= <- _]. unfold gains_consistent. cbn. auto.
  - exact Hshort.
  - intros s o0 o1 o2 ro kp_tr Hl (Hp & _) Hne.
    rewrite (Hshort s o0 o1 o2 ro kp_tr Hl).
    unfold gains_consistent. cbn. intros (Hp' & _).
    apply Hne. rewrite Hp, <- Hp'. reflexivity.
  - intros s kp_ori kp_tr Hl.
    destruct kp_ori as [|o0 [|o1 [|o2 ro]]]; cbn in Hl; try reflexivity; lia.
Qed.

Lemma setPoseCtrlGain_req_consistency_witness :
  ~ gains_consistent
      (fst (srvcllbck_setPoseCtrlGain_req [5; 5; 5] [1] Sample.s0)).
Proof.
  apply (proj1 (proj2 (proj2 (proj2 setPoseCtrlGain_req_consistency)))
           Sample.s0 5 5 5 [] [1]).
  - cbn. lia.
  - unfold gains_consistent. cbn. auto.
  - cbn. intros [= H _ _]. lra.
Defined.

(** X3.  [get_key_by_value] returns the key of the first item of the
    dict that holds the value, and [None] exactly when no item holds
    it. *)
Theorem get_key_by_value_spec (d : list (string * Z)) (v : Z) :
  (forall k, get_key_by_value d v = Some k ->
     exists d1 d2, d = d1 ++ (k, v) :: d2 /\ forall k', ~ In (k', v) d1) /\
  (get_key_by_value d v = None <-> forall k, ~ In (k, v) d).
Proof.
  split; [|apply get_key_by_value_none].
  induction d as [|[k' v'] d IH]; cbn; intros k; [discriminate|].
  destruct (Z.eqb_spec v' v) as [->|Hne].
  - intros [= ->]. exists [], d. split; [reflexivity | intros k' []].
  - intros H. destruct (IH k H) as (d1 & d2 & -> & Hn).
    exists ((k', v') :: d1), d2. split; [reflexivity|].
    intros k'' [[= _ E]|Hin]; [contradiction | exact (Hn k'' Hin)].
Qed.

Lemma get_key_by_value_spec_witness :
  exists d1 d2,
    chassisCtrlType = d1 ++ ("orientationNullSpace"%string, 2%Z) :: d2 /\
    forall k', ~ In (k', 2%Z) d1.
Proof.
  apply (proj1 (get_key_by_value_spec chassisCtrlType 2)).
  reflexivity.
Defined.

(** X4.  Whenever a set-control-type request is accepted (its answer is
    not -1), the name the node logs for the new mode exists:
    [get_key_by_value] finds a key of [chassisCtrlType] for the stored
    mode, and that key maps back to the requested value. *)
Theorem accepted_mode_has_key (s : state) (value : Z) :
  snd (srvcllbck_setCtrlType value s) <> (-1)%Z ->
  exists key,
    get_key_by_value chassisCtrlType
      (ctrlType_curr (fst (srvcllbck_setCtrlType value s))) = Some key /\
    dict_get chassisCtrlType key = value.
Proof.
  unfold srvcllbck_setCtrlType.
  change (Z.of_nat (length chassisCtrlType)) with 3%Z.
  destruct (Z.leb_spec 1 value), (Z.leb_spec value 3); cbn;
    try (intros Hret; exfalso; apply Hret; reflexivity).
  intros _.
  assert (Hv : value = 1%Z \/ value = 2%Z \/ value = 3%Z) by lia.
  destruct Hv as [-> | [-> | ->]]; eexists; split; reflexivity.
Qed.

Lemma accepted_mode_has_key_witness :
  exists key,
    get_key_by_value chassisCtrlType
      (ctrlType_curr (fst (srvcllbck_setCtrlType 3 Sample.s0))) = Some key /\
    dict_get chassisCtrlType key = 3%Z.
Proof.
  apply (accepted_mode_has_key Sample.s0 3). discriminate.
Defined.

(** X5.  After any sequence of set-control-type requests the
    get-control-type service reports the value of the last accepted
    request, and the mode held before the sequence when none was
    accepted: rejected requests leave no trace. *)
Theorem getCtrlType_after_requests (values : list Z) (s : state) :
  srvcllbck_getCtrlType (set_modes values s)
  = last_accepted values (ctrlType_curr s).
Proof. unfold srvcllbck_getCtrlType. apply set_modes_mode. Qed.

(** X6.  [getParamWithWait]: when the parameter is missing at the first
    [n] polls and there at the next one, the function stops polling after
    exactly [n] log lines and fetches the parameter; it returns the value
    held at the fetch, and raises KeyError if the parameter was removed
    between the successful poll and the fetch. *)
Theorem getParamWithWait_first_seen (n fuel : nat) (server : param_server)
    (t : nat) :
  (n < fuel)%nat ->
  (forall k, (k < n)%nat -> server (t + k)%nat = None) ->
  server (t + n)%nat <> None ->
  getParamWithWait fuel server t
  = Some (n, match server (S (t + n)) with
             | Some v => inr v
             | None => inl KeyError
             end).
Proof. apply getParamWithWait_first. Qed.

Lemma getParamWithWait_first_seen_witness :
  getParamWithWait 10 (Cases.server_from 3 Sample.side) 0
  = Some (3%nat, inr Sample.side).
Proof.
  apply (getParamWithWait_first_seen 3 10 (Cases.server_from 3 Sample.side) 0).
  - lia.
  - intros k Hk. unfold Cases.server_from. change (0 + k)%nat with k.
    destruct (Nat.ltb_spec k 3); [reflexivity | lia].
  - discriminate.
Defined.

(** X7.  [getParamWithWait] never returns while the parameter is never
    set: whatever the number of polls allowed, it is still waiting. *)
Theorem getParamWithWait_waits_forever (fuel : nat) (server : param_server)
    (t : nat) :
  (forall n, server (t + n)%nat = None) ->
  getParamWithWait fuel server t = None.
Proof. apply getParamWithWait_never. Qed.

Lemma getParamWithWait_waits_forever_witness :
  getParamWithWait 1000 Cases.server_never 0 = None.
Proof.
  apply getParamWithWait_waits_forever. intros n. reflexivity.
Defined.

(** X8.  From start-up, as long as one of the three topics (IMU, ground
    distance, joint state) has delivered no message, no event of the run
    publishes anything and no pass of the loop raises, whatever the
    other events are. *)
Theorem silent_until_all_topics (env : Env) (side : param_value) (act : bool)
    (Jo Ja : matrix) (evs : list event) :
  Forall (fun ev => is_MsgImu ev = false) evs \/
  Forall (fun ev => is_MsgGrndDist ev = false) evs \/
  Forall (fun ev => is_MsgJointState ev = false) evs ->
  exists s',
    run env evs (init env side act Jo Ja) = (repeat [] (length evs), inr s').
Proof.
  intros H. apply run_silent.
  destruct H as [H | [H | H]]; [left | right; left | right; right];
    (split; [exact H | reflexivity]).
Qed.

Lemma silent_until_all_topics_witness :
  exists s',
    run Sample.env
        [MsgImu Sample.imu_level; MsgGrndDist (Sample.grnd 0);
         Tick (Some Sample.side); SetCtrlType 2; Tick None]
        (init Sample.env Sample.side true Sample.Jo Sample.Ja)
    = (repeat [] 5, inr s').
Proof.
  apply (silent_until_all_topics Sample.env Sample.side true Sample.Jo
           Sample.Ja
           [MsgImu Sample.imu_level; MsgGrndDist (Sample.grnd 0);
            Tick (Some Sample.side); SetCtrlType 2; Tick None]).
  right. right. repeat constructor.
Defined.

(** X9.  A pass of the loop during which no service request is served
    (the mode it reads at lines 171, 182, 198 and 246 is one and the same
    value of the dict) is all or nothing: it publishes nothing, or it
    publishes exactly five messages, in the order command, current pose,
    set-point, error, gain, with the stored set-point and gain, and
    completes without raising.  Passes interleaved with a
    set-control-type request are outside this statement. *)
Theorem pass_all_or_nothing (env : Env) (lookup : option param_value)
    (s : state) :
  valid_mode (ctrlType_curr s) = true ->
  fst (tick env lookup s) = [] \/
  exists c p e s',
    tick env lookup s =
      ([CmdVelFlipperSpace c; DqPoseCurr p; DqSetPoint (vec8 (x_sp_dq s));
        DqError e; DqSP (vec8 (kp_a_dq s))], inr s').
Proof. apply tick_all_or_nothing. Qed.

Lemma pass_all_or_nothing_witness :
  fst (tick Sample.env None (Sample.s_ready 0)) = [] \/
  exists c p e s',
    tick Sample.env None (Sample.s_ready 0) =
      ([CmdVelFlipperSpace c; DqPoseCurr p;
        DqSetPoint (vec8 (x_sp_dq (Sample.s_ready 0)));
        DqError e; DqSP (vec8 (kp_a_dq (Sample.s_ready 0)))], inr s').
Proof.
  apply (pass_all_or_nothing Sample.env None (Sample.s_ready 0)).
  reflexivity.
Defined.

(** X10.  With the node active and the three snapshots there, a
    ground-distance snapshot whose array is empty makes the pass of the
    loop raise IndexError before anything is published, in every mode and
    whatever the parameter server holds. *)
Theorem empty_ground_array_raises (env : Env) (lookup : option param_value)
    (s : state) (g : Vector3ArrayStamped) (j : JointState) (i : Imu) :
  active s = true -> msg_grndDist s = Some g ->
  msg_jointState s = Some j -> msg_imu s = Some i ->
  vec g = [] ->
  tick env lookup s = ([], inl IndexError).
Proof. apply tick_empty_vec. Qed.

Lemma empty_ground_array_raises_witness :
  tick Sample.env None Sample.s_empty_grnd = ([], inl IndexError).
Proof.
  apply (empty_ground_array_raises Sample.env None Sample.s_empty_grnd
           Sample.grnd_empty Sample.joints_at_target Sample.imu_level);
    reflexivity.
Defined.

(** X11.  In the OrientationNullSpace mode, a joint-state snapshot that
    leaves fewer than four corrected flipper angles (fewer than eight
    joint positions, for a correction that keeps the length) makes the
    pass raise ValueError at the reshape of the bias, before anything is
    published. *)
Theorem short_joint_state_raises (env : Env) (lookup : option param_value)
    (s : state) (g : Vector3ArrayStamped) (j : JointState) (i : Imu)
    (g0 : Vector3) :
  active s = true -> msg_grndDist s = Some g ->
  msg_jointState s = Some j -> msg_imu s = Some i ->
  nth_error (vec g) 0 = Some g0 ->
  ctrlType_curr s = CT_orientationNullSpace ->
  (length (correctFlippersJointSignal env (skipn 4 (position j))) < 4)%nat ->
  tick env lookup s = ([], inl ValueError).
Proof. apply tick_short_flippers. Qed.

Lemma short_joint_state_raises_witness :
  tick Sample.env (Some Sample.side) Cases.s_short_joints
  = ([], inl ValueError).
Proof.
  apply (short_joint_state_raises Sample.env (Some Sample.side)
           Cases.s_short_joints (Sample.grnd 0) Cases.joints_short
           Sample.imu_level (mkVector3 0 0 0));
    try reflexivity.
  cbn. lia.
Defined.

(** X12.  When the drive-side parameter is no longer on the parameter
    server, a pass of the loop that got through the control computation
    raises KeyError at [rospy.get_param] and publishes nothing: the
    command computed in that pass is lost. *)
Theorem missing_param_raises (env : Env) (s : state) :
  active s = true -> ready s = true -> well_formed env s ->
  tick env None s = ([], inl KeyError).
Proof. apply tick_missing_param. Qed.

Lemma missing_param_raises_witness :
  tick Sample.env None (Sample.s_ready 0) = ([], inl KeyError).
Proof.
  apply (missing_param_raises Sample.env (Sample.s_ready 0)).
  - reflexivity.
  - reflexivity.
  - apply sample_well_formed.
Defined.

(** X13.  Every command a pass publishes from well-formed snapshots has
    exactly four entries, one per propulsion unit, and each entry has
    zero x and y components: only vertical velocities are commanded, in
    every mode. *)
Theorem command_is_four_vertical_velocities (env : Env)
    (side : param_value) (s : state) :
  active s = true -> ready s = true -> well_formed env s ->
  exists z1 z2 z3 z4,
    commands (fst (tick env (Some side) s))
    = [CmdVelFlipperSpace
         [mkVector3 0 0 z1; mkVector3 0 0 z2;
          mkVector3 0 0 z3; mkVector3 0 0 z4]].
Proof.
  intros Ha Hr Hw.
  destruct (tick_command_signal env side s Ha Hr Hw) as (U & HU & ->).
  destruct (cmd_msg_col U HU) as (z1 & z2 & z3 & z4 & ->).
  exists z1, z2, z3, z4. reflexivity.
Qed.

Lemma command_is_four_vertical_velocities_witness :
  exists z1 z2 z3 z4,
    commands (fst (tick Sample.env (Some Sample.side) Sample.s_nullspace))
    = [CmdVelFlipperSpace
         [mkVector3 0 0 z1; mkVector3 0 0 z2;
          mkVector3 0 0 z3; mkVector3 0 0 z4]].
Proof.
  apply (command_is_four_vertical_velocities Sample.env Sample.side
           Sample.s_nullspace).
  - reflexivity.
  - reflexivity.
  - split; [|split].
    + exists (Sample.grnd 0). split; [reflexivity | discriminate].
    + intros _. exists Sample.joints_at_target. split; [reflexivity|].
      cbn. lia.
    + exact sample_kin_shapes.
Defined.

(** X14.  In the Orientation mode, when the de-yawed orientation equals
    the set-point orientation, the command is the zero 4-vector for every
    gain and every set-point, unit quaternion or not. *)
Theorem orientation_at_setpoint (env : Env) (side : param_value)
    (s : state) (g : Vector3ArrayStamped) (j : JointState) (i : Imu)
    (g0 : Vector3) :
  active s = true -> msg_grndDist s = Some g ->
  msg_jointState s = Some j -> msg_imu s = Some i ->
  nth_error (vec g) 0 = Some g0 ->
  ctrlType_curr s = CT_orientation ->
  shape 4 2 (J_ori_dagger (kin s)) ->
  deyaw (orientation i) = x_sp_ori_q s ->
  commands (fst (tick env (Some side) s)) = [zero_cmd].
Proof.
  intros Ha Hg Hj Hi Hg0 Hm [HJ _] Hx.
  rewrite (tick_orientation env side s g j i g0 Ha Hg Hj Hi Hg0 Hm).
  rewrite Hx, orientation_signal_at_setpoint, dot_zero_col, HJ.
  reflexivity.
Qed.

Lemma orientation_at_setpoint_witness :
  commands (fst (tick Sample.env (Some Sample.side) Cases.s_level))
  = [zero_cmd].
Proof.
  apply (orientation_at_setpoint Sample.env Sample.side Cases.s_level
           (Sample.grnd 0) Sample.joints_at_target Sample.imu_level
           (mkVector3 0 0 0)); try reflexivity.
  - split; [reflexivity | repeat constructor].
  - cbn [orientation Sample.imu_level]. rewrite deyaw_one.
    change (x_sp_ori_q Cases.s_level)
      with (fst (convertSetPoints2DqFormat (0, 0, 0) (0, 0, 0))).
    rewrite convert_zero. reflexivity.
Defined.

(** X15.  The null-space bias cannot be seen by the orientation task:
    with [J_ori] the Moore-Penrose pseudo-inverse of [J_ori_dagger],
    [J_ori] applied to the signal commanded in the OrientationNullSpace
    mode equals [J_ori] applied to the signal the Orientation mode
    commands from the same state, whatever the flipper angles are. *)
Theorem nullspace_bias_invisible_to_task (env : Env) (side : param_value)
    (s : state) (g : Vector3ArrayStamped) (j : JointState) (i : Imu)
    (g0 : Vector3) (Jo Ja : matrix) :
  active s = true -> msg_grndDist s = Some g ->
  msg_jointState s = Some j -> msg_imu s = Some i ->
  nth_error (vec g) 0 = Some g0 ->
  kin s = one_time_kin env Jo Ja ->
  shape 4 2 Jo -> shape 2 4 (pinv env Jo) ->
  moore_penrose Jo (pinv env Jo) ->
  ctrlType_curr s = CT_orientationNullSpace ->
  (4 <= length (correctFlippersJointSignal env (skipn 4 (position j))))%nat ->
  exists U1 U2,
    commands (fst (tick env (Some side) (set_ctrlType_curr CT_orientation s)))
      = [cmd_msg U1] /\
    commands (fst (tick env (Some side) s)) = [cmd_msg U2] /\
    shape 4 1 U1 /\ shape 4 1 U2 /\
    dot (J_ori (kin s)) U2 = dot (J_ori (kin s)) U1.
Proof.
  intros Ha Hg Hj Hi Hg0 Hk HJo HB (_ & HBAB & _) Hm Hlen.
  rewrite (tick_orientation env side (set_ctrlType_curr CT_orientation s)
             g j i g0 Ha Hg Hj Hi Hg0 eq_refl).
  rewrite (tick_nullspace env side s g j i g0 _ Ha Hg Hj Hi Hg0 Hm
             (reshape_col_some 4 _ (mu_list_length _ Hlen))).
  cbn [x_sp_ori_q kp_o_q kin x_sp_dq kp_a_dq set_ctrlType_curr].
  pose proof (mu_list_length _ Hlen) as Hmu.
  destruct (mu_list _ _ _) as [|m1 [|m2 [|m3 [|m4 [|? ?]]]]];
    try discriminate.
  cbn [map]. rewrite Hk. cbn [one_time_kin J_ori_dagger J_ori J_ori_nsproj].
  eexists. eexists. split; [reflexivity|]. split; [reflexivity|].
  assert (HU1 : forall a b, shape 4 1 (dot Jo [[a]; [b]]))
    by (intros a b; apply (dot_shape 4 2 _ [[a]; [b]]); exact HJo).
  split; [apply HU1|]. split.
  - apply madd_shape_col; [apply HU1|].
    apply (dot_shape 4 4 _ [[m1]; [m2]; [m3]; [m4]]).
    destruct (shape_4_2 Jo HJo) as (a1 & b1 & a2 & b2 & a3 & b3 & a4 & b4 & ->).
    destruct (shape_2_4 _ HB) as (c1 & c2 & c3 & c4 & d1 & d2 & d3 & d4 & ->).
    split; [reflexivity | repeat constructor].
  - apply nullspace_invisible; try assumption;
      split; try reflexivity; repeat constructor.
Qed.

Lemma nullspace_bias_invisible_to_task_witness :
  exists U1 U2,
    commands (fst (tick Sample.env (Some Sample.side)
                     (set_ctrlType_curr CT_orientation Sample.s_nullspace)))
      = [cmd_msg U1] /\
    commands (fst (tick Sample.env (Some Sample.side) Sample.s_nullspace))
      = [cmd_msg U2] /\
    shape 4 1 U1 /\ shape 4 1 U2 /\
    dot (J_ori (kin Sample.s_nullspace)) U2
    = dot (J_ori (kin Sample.s_nullspace)) U1.
Proof.
  apply (nullspace_bias_invisible_to_task Sample.env Sample.side
           Sample.s_nullspace (Sample.grnd 0) Sample.joints_at_target
           Sample.imu_level (mkVector3 0 0 0) Sample.Jo Sample.Ja);
    try reflexivity.
  - split; [reflexivity | repeat constructor].
  - split; [reflexivity | repeat constructor].
  - exact sample_moore_penrose.
Defined.

(** X16.  In the Orientation mode the command, the set-point, the error
    and the gain a pass publishes do not depend on the ground-distance
    and joint-state snapshots, as long as they are there: two states that
    differ in these two snapshots publish the same messages but for the
    current pose. *)
Theorem orientation_ignores_ground_and_joints (env : Env)
    (side : param_value) (s : state) (g g' : Vector3ArrayStamped)
    (j j' : JointState) (i : Imu) (g0 g0' : Vector3) :
  active s = true -> msg_imu s = Some i ->
  ctrlType_curr s = CT_orientation ->
  nth_error (vec g) 0 = Some g0 -> nth_error (vec g') 0 = Some g0' ->
  exists c p p' sp e k,
    fst (tick env (Some side) (cllbck_jointState j (cllbck_grndDist g s)))
      = [c; DqPoseCurr p; sp; e; k] /\
    fst (tick env (Some side) (cllbck_jointState j' (cllbck_grndDist g' s)))
      = [c; DqPoseCurr p'; sp; e; k].
Proof.
  intros Ha Hi Hm Hg0 Hg0'.
  rewrite (tick_orientation env side
             (cllbck_jointState j (cllbck_grndDist g s)) g j i g0
             Ha eq_refl eq_refl Hi Hg0 Hm).
  rewrite (tick_orientation env side
             (cllbck_jointState j' (cllbck_grndDist g' s)) g' j' i g0'
             Ha eq_refl eq_refl Hi Hg0' Hm).
  repeat eexists.
Qed.

Lemma orientation_ignores_ground_and_joints_witness :
  exists c p p' sp e k,
    fst (tick Sample.env (Some Sample.side)
           (cllbck_jointState Sample.joints_at_target
              (cllbck_grndDist (Sample.grnd 0) (Sample.s_ready 0))))
      = [c; DqPoseCurr p; sp; e; k] /\
    fst (tick Sample.env (Some Sample.side)
           (cllbck_jointState Cases.joints_short
              (cllbck_grndDist (Sample.grnd 1) (Sample.s_ready 0))))
      = [c; DqPoseCurr p'; sp; e; k].
Proof.
  apply (orientation_ignores_ground_and_joints Sample.env Sample.side
           (Sample.s_ready 0) (Sample.grnd 0) (Sample.grnd 1)
           Sample.joints_at_target Cases.joints_short Sample.imu_level
           (mkVector3 0 0 0) (mkVector3 0 0 1)); reflexivity.
Defined.

(** X17.  A pass of the loop that completes leaves the activation flag,
    the three snapshots, the mode, the set-point, the gains and the
    kinematic model as they were: the loop only reads its settings. *)
Theorem pass_keeps_settings (env : Env) (lookup : option param_value)
    (s s' : state) (o : list output) :
  tick env lookup s = (o, inr s') -> same_settings s s'.
Proof. apply tick_same_settings. Qed.

Lemma pass_keeps_settings_witness :
  exists o s',
    tick Sample.env (Some Sample.side) (Sample.s_ready 0) = (o, inr s') /\
    same_settings (Sample.s_ready 0) s'.
Proof.
  eexists. eexists. split; [reflexivity|].
  apply (pass_keeps_settings Sample.env (Some Sample.side)
           (Sample.s_ready 0) _ _ eq_refl).
Defined.

(** X18.  The kinematic model is computed once: after any run that ends
    without an exception, whatever the events, the Jacobians and the
    null-space projector are those of the state the run started from. *)
Theorem kin_never_changes (env : Env) (evs : list event) (s s' : state) :
  snd (run env evs s) = inr s' -> kin s' = kin s.
Proof. apply run_kin. Qed.

Lemma kin_never_changes_witness :
  kin (fst (srvcllbck_setCtrlType 3
              (cllbck_imu Sample.imu_level Sample.s0)))
  = kin Sample.s0.
Proof.
  apply (kin_never_changes Sample.env
           [MsgImu Sample.imu_level; SetCtrlType 3] Sample.s0).
  reflexivity.
Defined.
